(** * UUID48: 48-bit timestamp generator and UUIDv7-style identifiers

    A shallow embedding of

    - [PAX-Timestamp48/src/timestamp.js]  (class [UUID48Timestamp]),
    - [PAX-Timestamp48/src/base64url.js]  (the Base64URL codec),
    - [PAX-Timestamp48/src/index.js]      (the format facade),
    - [Timestamp48/gpt-5.js]              (the two 128-bit generators),

    followed by the properties of these definitions.

    Conventions.  A BigInt is a [Z]; [>>], [<<], [&] and [|] on BigInt are
    [Z.shiftr], [Z.shiftl], [Z.land] and [Z.lor].  A [Buffer] / [Uint8Array]
    is a [list Z] of bytes.  A JavaScript string is a [string]; an [Error] is
    its message.  [Date.now()] is an oracle: every call pops the next reading
    of a finite list of clock readings, and a call that needs a reading when
    the list is empty ends as [Blocked]. *)

From Stdlib Require Import ZArith List String Ascii Bool Lia.
From Stdlib Require Import DecimalString Sorted.
Import ListNotations.

Local Open Scope string_scope.
Local Open Scope Z_scope.

(** ** Outcomes of a call *)

(** A call returns a value, throws an [Error] with a message, or is still
    polling the clock when the readings run out. *)
Inductive Completion (A : Type) : Type :=
| Return (a : A)
| Throw (message : string)
| Blocked.

Arguments Return {A} a.
Arguments Throw {A} message.
Arguments Blocked {A}.

Definition Buffer : Type := list Z.

(** The values the facade is called with: [timestamp] arguments are strings
    or Buffers, and callers may pass anything else. *)
Inductive JsValue : Type :=
| JsUndefined
| JsNull
| JsNumber (n : Z)
| JsString (s : string)
| JsBuffer (b : Buffer).

(** The double-quote character, for messages that quote a value. *)
Definition dq : string := String (ascii_of_nat 34) EmptyString.

(** The text a template literal gives for a BigInt or an integer Number. *)
Definition showZ (z : Z) : string := NilEmpty.string_of_int (Z.to_int z).

(** [String.prototype.includes]. *)
Fixpoint includes (needle hay : string) : bool :=
  prefix needle hay
  || match hay with
     | EmptyString => false
     | String _ hay' => includes needle hay'
     end.

(** ** timestamp.js *)

Module Timestamp.

Inductive WaitStrategy : Type := Increment | Wait.

Record UUID48Timestamp : Type := mkGen {
  lastSystemTime : Z;
  subMillisecondCounter : Z;
  maxSubMs : Z;
  waitStrategy : WaitStrategy
}.

(** The [options] object of the constructor; an absent key is [None]. *)
Record Options : Type := mkOptions {
  opt_maxSubMs : option Z;
  opt_waitStrategy : option string
}.

(** [x || dflt] on an optional number: [undefined] and [0] are falsy. *)
Definition orDefaultZ (x : option Z) (dflt : Z) : Z :=
  match x with
  | Some v => if v =? 0 then dflt else v
  | None => dflt
  end.

(** [x || dflt] on an optional string: [undefined] and the empty string are
    falsy. *)
Definition orDefaultS (x : option string) (dflt : string) : string :=
  match x with
  | Some EmptyString => dflt
  | Some v => v
  | None => dflt
  end.

Definition constructor (options : Options) : Completion UUID48Timestamp :=
  let maxSubMs := orDefaultZ (opt_maxSubMs options) 4096 in
  let waitStrategy := orDefaultS (opt_waitStrategy options) "increment" in
  if (maxSubMs <=? 0) || (maxSubMs >? 65536) then
    Throw ("maxSubMs must be between 1 and 65536, got " ++ showZ maxSubMs)
  else if String.eqb waitStrategy "increment" then
    Return (mkGen 0 0 maxSubMs Increment)
  else if String.eqb waitStrategy "wait" then
    Return (mkGen 0 0 maxSubMs Wait)
  else
    Throw ("waitStrategy must be " ++ dq ++ "increment" ++ dq ++ " or "
           ++ dq ++ "wait" ++ dq ++ ", got " ++ dq ++ waitStrategy ++ dq).

Definition maxValue : Z := 0xFFFFFFFFFFFF.

Definition _timestampToBuffer (timestamp : Z) : Completion Buffer :=
  if timestamp >? maxValue then
    Throw ("Timestamp " ++ showZ timestamp ++ " exceeds 48-bit limit (max: "
           ++ showZ maxValue ++ "). "
           ++ "This indicates system time is beyond year 8921. Check system clock configuration.")
  else
    Return [ Z.land (Z.shiftr timestamp 40) 0xFF;
             Z.land (Z.shiftr timestamp 32) 0xFF;
             Z.land (Z.shiftr timestamp 24) 0xFF;
             Z.land (Z.shiftr timestamp 16) 0xFF;
             Z.land (Z.shiftr timestamp 8) 0xFF;
             Z.land timestamp 0xFF ].

(** What a call leaves behind: its completion, the generator afterwards and
    the clock readings not yet consumed. *)
Definition Outcome : Type := (Completion Buffer * UUID48Timestamp * list Z)%type.

Definition _handleNewMillisecond (g : UUID48Timestamp) (systemTime : Z)
  : Completion Buffer * UUID48Timestamp :=
  let g := mkGen systemTime 0 (maxSubMs g) (waitStrategy g) in
  (_timestampToBuffer systemTime, g).

Definition _handleClockBackward (g : UUID48Timestamp) (systemTime : Z)
  : Completion Buffer * UUID48Timestamp :=
  let g := mkGen (lastSystemTime g + 1) 0 (maxSubMs g) (waitStrategy g) in
  (_timestampToBuffer (lastSystemTime g), g).

Section BusyWait.
(** The loop of [_waitForNextMillisecond]: every test of the loop reads the
    clock; the first reading that differs from [lastSystemTime] ends the
    loop and [generate] is called on what follows. *)
Variable generate : list Z -> Outcome.
Variable g : UUID48Timestamp.

Fixpoint _waitForNextMillisecond (clock : list Z) : Outcome :=
  match clock with
  | [] => (Blocked, g, [])
  | t :: clock' =>
      if t =? lastSystemTime g then _waitForNextMillisecond clock'
      else generate clock'
  end.
End BusyWait.

Fixpoint generate (g : UUID48Timestamp) (clock : list Z) {struct clock} : Outcome :=
  match clock with
  | [] => (Blocked, g, [])
  | systemTime :: clock' =>
      if systemTime =? lastSystemTime g then
        (* _handleSameMillisecond *)
        let g := mkGen (lastSystemTime g) (subMillisecondCounter g + 1)
                       (maxSubMs g) (waitStrategy g) in
        if subMillisecondCounter g >=? maxSubMs g then
          match waitStrategy g with
          | Wait =>
              _waitForNextMillisecond (fun clock'' => generate g clock'') g clock'
          | Increment =>
              let incrementedTime := systemTime + 1 in
              let g := mkGen incrementedTime 0 (maxSubMs g) (waitStrategy g) in
              (_timestampToBuffer incrementedTime, g, clock')
          end
        else (_timestampToBuffer systemTime, g, clock')
      else if systemTime >? lastSystemTime g then
        let '(r, g) := _handleNewMillisecond g systemTime in (r, g, clock')
      else
        let '(r, g) := _handleClockBackward g systemTime in (r, g, clock')
  end.

(** The expression both [validateBuffer] and [bufferToTimestamp] evaluate
    on the six bytes. *)
Definition readBigEndian48 (b0 b1 b2 b3 b4 b5 : Z) : Z :=
  Z.lor (Z.lor (Z.lor (Z.lor (Z.lor (Z.shiftl b0 40) (Z.shiftl b1 32))
                             (Z.shiftl b2 24)) (Z.shiftl b3 16))
               (Z.shiftl b4 8)) b5.

Definition validateBuffer (buffer : JsValue) : bool :=
  match buffer with
  | JsBuffer [b0; b1; b2; b3; b4; b5] =>
      readBigEndian48 b0 b1 b2 b3 b4 b5 <=? 0xFFFFFFFFFFFF
  | _ => false
  end.

Definition bufferToTimestamp (buffer : JsValue) : Completion Z :=
  if negb (validateBuffer buffer) then
    Throw "Invalid timestamp buffer: must be 6 bytes"
  else
    match buffer with
    | JsBuffer [b0; b1; b2; b3; b4; b5] =>
        Return (readBigEndian48 b0 b1 b2 b3 b4 b5)
    | _ => Throw "Invalid timestamp buffer: must be 6 bytes"
    end.

End Timestamp.

(** ** The runtime's Base64 and hex codecs

    [buf.toString("base64")], [Buffer.from(s, "base64")], [btoa],
    [buf.toString("hex")] and [Buffer.from(s, "hex")] belong to the platform.
    They are modelled on sextets (6-bit digits): RFC 4648 encoding with [=]
    padding, and Node's lenient decoder, which stops at the first [=], skips
    characters outside the alphabet, reads [-] and [_] as 62 and 63, and
    drops a dangling sextet and the unused low bits of the last one. *)

Module Runtime.

Definition code (c : ascii) : Z := Z.of_N (N_of_ascii c).
Definition char (n : Z) : ascii := ascii_of_N (Z.to_N n).

(** Digit [i] of the alphabet [A-Za-z0-9+/]. *)
Definition b64char (i : Z) : ascii :=
  char (if i <? 26 then i + 65
        else if i <? 52 then i + 71
        else if i <? 62 then i - 4
        else if i =? 62 then 43 else 47).

Definition b64index (c : ascii) : option Z :=
  let n := code c in
  if (65 <=? n) && (n <=? 90) then Some (n - 65)
  else if (97 <=? n) && (n <=? 122) then Some (n - 71)
  else if (48 <=? n) && (n <=? 57) then Some (n + 4)
  else if (n =? 43) || (n =? 45) then Some 62
  else if (n =? 47) || (n =? 95) then Some 63
  else None.

(** Three bytes make four sextets; one byte makes two, two bytes three. *)
Fixpoint bytesToSextets (bytes : list Z) : list Z :=
  match bytes with
  | a :: b :: c :: rest =>
      Z.shiftr a 2
      :: Z.lor (Z.shiftl (Z.land a 3) 4) (Z.shiftr b 4)
      :: Z.lor (Z.shiftl (Z.land b 15) 2) (Z.shiftr c 6)
      :: Z.land c 63
      :: bytesToSextets rest
  | [a; b] =>
      [ Z.shiftr a 2;
        Z.lor (Z.shiftl (Z.land a 3) 4) (Z.shiftr b 4);
        Z.shiftl (Z.land b 15) 2 ]
  | [a] => [ Z.shiftr a 2; Z.shiftl (Z.land a 3) 4 ]
  | [] => []
  end.

Fixpoint sextetsToBytes (sextets : list Z) : list Z :=
  match sextets with
  | p :: q :: r :: s :: rest =>
      Z.lor (Z.shiftl p 2) (Z.shiftr q 4)
      :: Z.lor (Z.shiftl (Z.land q 15) 4) (Z.shiftr r 2)
      :: Z.lor (Z.shiftl (Z.land r 3) 6) s
      :: sextetsToBytes rest
  | [p; q; r] =>
      [ Z.lor (Z.shiftl p 2) (Z.shiftr q 4);
        Z.lor (Z.shiftl (Z.land q 15) 4) (Z.shiftr r 2) ]
  | [p; q] => [ Z.lor (Z.shiftl p 2) (Z.shiftr q 4) ]
  | _ => []
  end.

Definition padding (n : nat) : list ascii :=
  repeat "="%char ((3 - n mod 3) mod 3)%nat.

(** [buf.toString("base64")], also [btoa] of the bytes as a binary string. *)
Definition toBase64 (bytes : Buffer) : string :=
  string_of_list_ascii
    (map b64char (bytesToSextets bytes) ++ padding (List.length bytes)).

Fixpoint upToPad (cs : list ascii) : list ascii :=
  match cs with
  | [] => []
  | c :: cs' => if Ascii.eqb c "=" then [] else c :: upToPad cs'
  end.

Fixpoint digits (cs : list ascii) : list Z :=
  match cs with
  | [] => []
  | c :: cs' =>
      match b64index c with
      | Some d => d :: digits cs'
      | None => digits cs'
      end
  end.

(** [Buffer.from(s, "base64")]. *)
Definition fromBase64 (s : string) : Buffer :=
  sextetsToBytes (digits (upToPad (list_ascii_of_string s))).

Definition hexchar (d : Z) : ascii :=
  char (if d <? 10 then d + 48 else d + 87).

Definition hexval (c : ascii) : option Z :=
  let n := code c in
  if (48 <=? n) && (n <=? 57) then Some (n - 48)
  else if (97 <=? n) && (n <=? 102) then Some (n - 87)
  else if (65 <=? n) && (n <=? 70) then Some (n - 55)
  else None.

(** [buf.toString("hex")]: two lowercase digits per byte. *)
Definition toHex (bytes : Buffer) : string :=
  string_of_list_ascii
    (flat_map (fun b => [hexchar (Z.shiftr b 4); hexchar (Z.land b 15)]) bytes).

Fixpoint hexPairs (cs : list ascii) : list Z :=
  match cs with
  | a :: b :: rest =>
      match hexval a, hexval b with
      | Some x, Some y => (16 * x + y) :: hexPairs rest
      | _, _ => []
      end
  | _ => []
  end.

(** [Buffer.from(s, "hex")]: stops at the first pair that is not hex. *)
Definition fromHex (s : string) : Buffer :=
  hexPairs (list_ascii_of_string s).

Definition replaceChar (c d x : ascii) : ascii := if Ascii.eqb x c then d else x.

(** [s.replace(/c/g, d)] for a single character [c]. *)
Definition replaceAll (c d : ascii) (s : string) : string :=
  string_of_list_ascii (map (replaceChar c d) (list_ascii_of_string s)).

(** [s.replace(/c/g, EmptyString)]. *)
Definition removeAll (c : ascii) (s : string) : string :=
  string_of_list_ascii
    (filter (fun x => negb (Ascii.eqb x c)) (list_ascii_of_string s)).

(** [s.replace(/c+$/, EmptyString)]: drop the run of [c] at the end. *)
Fixpoint dropTrailing (c : ascii) (cs : list ascii) : list ascii :=
  match cs with
  | [] => []
  | x :: cs' =>
      match dropTrailing c cs' with
      | [] => if Ascii.eqb x c then [] else [x]
      | kept => x :: kept
      end
  end.

Definition stripTrailing (c : ascii) (s : string) : string :=
  string_of_list_ascii (dropTrailing c (list_ascii_of_string s)).

(** [s + c.repeat(n)]. *)
Definition padEnd (s : string) (c : ascii) (n : nat) : string :=
  s ++ string_of_list_ascii (repeat c n).

End Runtime.

(** ** base64url.js *)

Module Base64URL.
Import Runtime.

(** The class [[A-Za-z0-9_-]]. *)
Definition isBase64URLChar (c : ascii) : bool :=
  let n := code c in
  ((65 <=? n) && (n <=? 90)) || ((97 <=? n) && (n <=? 122))
  || ((48 <=? n) && (n <=? 57)) || (n =? 95) || (n =? 45).

(** [/^[A-Za-z0-9_-]*$/.test(str)]. *)
Definition matchesBase64URL (str : string) : bool :=
  forallb isBase64URLChar (list_ascii_of_string str).

Definition encodeBase64URL (buffer : JsValue) : Completion string :=
  match buffer with
  | JsBuffer bytes =>
      if (List.length bytes =? 0)%nat then Return EmptyString
      else Return (removeAll "=" (replaceAll "/" "_" (replaceAll "+" "-" (toBase64 bytes))))
  | _ => Throw "Input must be a Buffer"
  end.

Definition decodeBase64URL (str : JsValue) : Completion Buffer :=
  match str with
  | JsString str =>
      if (String.length str =? 0)%nat then Return []
      else if negb (matchesBase64URL str) then
        Throw "Invalid Base64URL string: contains invalid characters"
      else
        let padded := padEnd str "=" ((4 - String.length str mod 4) mod 4)%nat in
        let base64 := replaceAll "_" "/" (replaceAll "-" "+" padded) in
        Return (fromBase64 base64)
  | _ => Throw "Input must be a string"
  end.

Definition isValidBase64URL (str : JsValue) : bool :=
  match str with
  | JsString s =>
      if (String.length s =? 0)%nat then true
      else if negb (matchesBase64URL s) then false
      else if existsb (Ascii.eqb "=") (list_ascii_of_string s) then false
      else match decodeBase64URL str with
           | Return _ => true
           | _ => false
           end
  | _ => false
  end.

(** [str.length] of a value that passed [isValidBase64URL]. *)
Definition lengthOf (v : JsValue) : nat :=
  match v with
  | JsString s => String.length s
  | JsBuffer b => List.length b
  | _ => 0%nat
  end.

Definition isValidTimestampBase64URL (str : JsValue) : bool :=
  if negb (isValidBase64URL str) || negb (lengthOf str =? 8)%nat then false
  else match decodeBase64URL str with
       | Return decoded => (List.length decoded =? 6)%nat
       | _ => false
       end.

Definition timestampToBase64URL (timestampBuffer : JsValue) : Completion string :=
  match timestampBuffer with
  | JsBuffer bytes =>
      if negb (List.length bytes =? 6)%nat then
        Throw ("Expected 6-byte timestamp buffer, got "
               ++ showZ (Z.of_nat (List.length bytes)) ++ " bytes")
      else
        match encodeBase64URL timestampBuffer with
        | Return encoded =>
            if negb (String.length encoded =? 8)%nat then
              Throw ("Expected 8-character Base64URL output, got "
                     ++ showZ (Z.of_nat (String.length encoded)) ++ " characters")
            else Return encoded
        | other => other
        end
  | _ => Throw "Input must be a Buffer"
  end.

Definition base64URLToTimestamp (base64url : JsValue) : Completion Buffer :=
  if negb (isValidTimestampBase64URL base64url) then
    Throw "Invalid timestamp Base64URL: must be 8 characters encoding 6 bytes"
  else decodeBase64URL base64url.

End Base64URL.

(** ** index.js *)

Module Index.
Import Runtime Base64URL.

(** The message of the error [formatOutput] throws in its [default] case. *)
Definition unsupportedFormat (format : string) : string :=
  "Unsupported format: " ++ format ++ ". Supported formats: "
  ++ dq ++ "buffer" ++ dq ++ ", " ++ dq ++ "hex" ++ dq ++ ", "
  ++ dq ++ "base64url" ++ dq.

(** The generator's buffer in the requested format.  [formatOutput] is private
    and its callers hand it a Buffer; the branches for other values of
    [buffer] are never taken. *)
Definition formatOutput (buffer : JsValue) (format : string) : Completion JsValue :=
  if String.eqb format "buffer" then Return buffer
  else if String.eqb format "hex" then
    match buffer with
    | JsBuffer bytes => Return (JsString (toHex bytes))
    | _ => Throw "buffer.toString is not a function"
    end
  else if String.eqb format "base64url" then
    match timestampToBase64URL buffer with
    | Return text => Return (JsString text)
    | Throw message => Throw message
    | Blocked => Blocked
    end
  else Throw (unsupportedFormat format).

(** [generate(format)] on the module's [defaultGenerator]; the generator and
    the clock are threaded through. *)
Definition generate (format : string) (defaultGenerator : Timestamp.UUID48Timestamp)
           (clock : list Z)
  : Completion JsValue * Timestamp.UUID48Timestamp * list Z :=
  let '(r, defaultGenerator, clock) := Timestamp.generate defaultGenerator clock in
  let tried :=
    match r with
    | Return buffer => formatOutput (JsBuffer buffer) format
    | Throw message => Throw message
    | Blocked => Blocked
    end in
  let caught :=
    match tried with
    | Throw message =>
        if includes "48-bit limit" message then
          Throw ("Timestamp exceeds 48-bit limit. This error indicates system time "
                 ++ "is beyond year 8921. Check system clock configuration.")
        else Throw ("Failed to generate timestamp: " ++ message)
    | other => other
    end in
  (caught, defaultGenerator, clock).

(** [/^[0-9a-fA-F]{12}$/.test(timestamp)]. *)
Definition matchesHex12 (s : string) : bool :=
  (String.length s =? 12)%nat
  && forallb (fun c => match hexval c with Some _ => true | None => false end)
             (list_ascii_of_string s).

(** The [switch] of [validate], inside its [try]. *)
Definition validateSwitch (timestamp : JsValue) (format : string) : Completion bool :=
  if String.eqb format "base64url" then Return (isValidTimestampBase64URL timestamp)
  else if String.eqb format "hex" then
    match timestamp with
    | JsString s => if negb (matchesHex12 s) then Return false else Return true
    | _ => Return false
    end
  else if String.eqb format "buffer" then Return (Timestamp.validateBuffer timestamp)
  else
    Throw ("Invalid format " ++ dq ++ format ++ dq ++ ". Supported formats: "
           ++ dq ++ "base64url" ++ dq ++ ", " ++ dq ++ "hex" ++ dq ++ ", "
           ++ dq ++ "buffer" ++ dq).

Definition validate (timestamp : JsValue) (format : string) : Completion bool :=
  match timestamp with
  | JsNull | JsUndefined => Return false
  | _ =>
      match validateSwitch timestamp format with
      | Return b => Return b
      | Throw _ => Return false          (* catch (error) { return false; } *)
      | Blocked => Blocked
      end
  end.

Definition convert (timestamp : JsValue) (fromFormat toFormat : string)
  : Completion JsValue :=
  match validate timestamp fromFormat with
  | Return true =>
      let buffer :=
        if String.eqb fromFormat "buffer" then Return timestamp
        else if String.eqb fromFormat "hex" then
          match timestamp with
          | JsString s => Return (JsBuffer (fromHex s))
          | _ => Throw "The first argument must be of type string"
          end
        else if String.eqb fromFormat "base64url" then
          match base64URLToTimestamp timestamp with
          | Return bytes => Return (JsBuffer bytes)
          | Throw message => Throw message
          | Blocked => Blocked
          end
        else Throw ("Unsupported source format: " ++ fromFormat) in
      match buffer with
      | Return buffer => formatOutput buffer toFormat
      | other => other
      end
  | Return false =>
      Throw ("Invalid timestamp for format " ++ dq ++ fromFormat ++ dq)
  | Throw message => Throw message
  | Blocked => Blocked
  end.

(** [timestampToDate]: the [Date] is represented by its time value, in
    milliseconds.  A 48-bit value is an exact Number and a valid time value. *)
Definition timestampToDate (timestamp : JsValue) (format : string) : Completion Z :=
  match validate timestamp format with
  | Return true =>
      let buffer :=
        if String.eqb format "buffer" then Return timestamp
        else if String.eqb format "hex" then
          match timestamp with
          | JsString s => Return (JsBuffer (fromHex s))
          | _ => Throw "The first argument must be of type string"
          end
        else if String.eqb format "base64url" then
          match base64URLToTimestamp timestamp with
          | Return bytes => Return (JsBuffer bytes)
          | Throw message => Throw message
          | Blocked => Blocked
          end
        else Throw ("Unsupported format: " ++ format) in
      match buffer with
      | Return buffer => Timestamp.bufferToTimestamp buffer
      | Throw message => Throw message
      | Blocked => Blocked
      end
  | Return false =>
      Throw ("Invalid timestamp for format " ++ dq ++ format ++ dq)
  | Throw message => Throw message
  | Blocked => Blocked
  end.

(** [getTimestampAge]: one reading of the clock, after the timestamp has been
    decoded. *)
Definition getTimestampAge (timestamp : JsValue) (format : string) (clock : list Z)
  : Completion Z * list Z :=
  match timestampToDate timestamp format with
  | Return time =>
      match clock with
      | now :: clock' => (Return (now - time), clock')
      | [] => (Blocked, [])
      end
  | Throw message => (Throw message, clock)
  | Blocked => (Blocked, clock)
  end.

(** [isTimestampFresh], for an integer [maxAgeMs]. *)
Definition isTimestampFresh (timestamp : JsValue) (maxAgeMs : Z) (format : string)
           (clock : list Z) : Completion bool * list Z :=
  match getTimestampAge timestamp format clock with
  | (Return age, clock') => (Return ((age >=? 0) && (age <=? maxAgeMs)), clock')
  | (Throw _, clock') => (Return false, clock')     (* catch { return false; } *)
  | (Blocked, clock') => (Blocked, clock')
  end.

(** *** class TimestampGenerator *)


Record TimestampGenerator : Type := mkTG {
  algorithm : Timestamp.UUID48Timestamp;
  defaultFormat : string
}.


(** The method [generate(format = this.defaultFormat)]; an omitted argument is
    [None]. *)
Definition tgGenerate (this : TimestampGenerator) (format : option string)
           (clock : list Z)
  : Completion JsValue * TimestampGenerator * list Z :=
  let format := match format with Some f => f | None => defaultFormat this end in
  let '(r, algorithm, clock) := Timestamp.generate (algorithm this) clock in
  let tried :=
    match r with
    | Return buffer => formatOutput (JsBuffer buffer) format
    | Throw message => Throw message
    | Blocked => Blocked
    end in
  let caught :=
    match tried with
    | Throw message =>
        if includes "48-bit limit" message then
          Throw ("Timestamp exceeds 48-bit limit. System time is beyond year 8921. "
                 ++ "Check system clock configuration.")
        else Throw ("Failed to generate timestamp: " ++ message)
    | other => other
    end in
  (caught, mkTG algorithm (defaultFormat this), clock).

(** The loop of [generateBatch]: [n] calls of [generate], pushing on
    [results]; the first call that throws ends the batch with its error. *)
Fixpoint batchLoop (n : nat) (this : TimestampGenerator) (format : option string)
         (clock : list Z) (results : list JsValue)
  : Completion (list JsValue) * TimestampGenerator * list Z :=
  match n with
  | O => (Return results, this, clock)
  | S n' =>
      match tgGenerate this format clock with
      | (Return v, this, clock) => batchLoop n' this format clock (results ++ [v])%list
      | (Throw message, this, clock) => (Throw message, this, clock)
      | (Blocked, this, clock) => (Blocked, this, clock)
      end
  end.

(** [generateBatch(count, format)], for an integer [count]. *)
Definition generateBatch (this : TimestampGenerator) (count : Z) (format : option string)
           (clock : list Z)
  : Completion (list JsValue) * TimestampGenerator * list Z :=
  if count <=? 0 then (Throw "Count must be a positive integer", this, clock)
  else batchLoop (Z.to_nat count) this format clock [].

(** The method [validate(timestamp, format = this.defaultFormat)]. *)
Definition tgValidate (this : TimestampGenerator) (timestamp : JsValue)
           (format : option string) : Completion bool :=
  validate timestamp (match format with Some f => f | None => defaultFormat this end).

End Index.

(** ** gpt-5.js: the 128-bit generators *)

(** What a call draws from the secure random source. *)
Record Entropy : Type := mkEntropy {
  random12 : Z;          (* crypto.randomInt(0, 0x1000); a fresh Uint16 on the web *)
  randomTail8 : list Z   (* crypto.randomBytes(8) *)
}.

Record State : Type := mkState { lastMs : Z; seq12 : Z }.

(** The module state at load time. *)
Definition _state : State := mkState 0 0.

(** Bytes 0 to 7 of both [_packUuidV7]. *)
Definition packHead (ts48 seq12 : Z) : list Z :=
  [ Z.land (Z.shiftr ts48 40) 0xff;
    Z.land (Z.shiftr ts48 32) 0xff;
    Z.land (Z.shiftr ts48 24) 0xff;
    Z.land (Z.shiftr ts48 16) 0xff;
    Z.land (Z.shiftr ts48 8) 0xff;
    Z.land ts48 0xff;
    Z.lor 0x70 (Z.land (Z.shiftr seq12 8) 0x0f);
    Z.land seq12 0xff ].

(** [tail[0] = (tail[0] & 0x3f) | 0x80] on the eight random bytes. *)
Definition setVariant (randTail8 : list Z) : list Z :=
  match randTail8 with
  | t0 :: rest => Z.lor (Z.land t0 0x3f) 0x80 :: rest
  | [] => []
  end.

Module UuidV7Node.
Import Runtime.

Fixpoint _waitNextMs (currentMs : Z) (clock : list Z) : option (Z * list Z) :=
  match clock with
  | [] => None
  | t :: clock' =>
      if t <=? currentMs then _waitNextMs currentMs clock' else Some (t, clock')
  end.

Definition _packUuidV7 (ts48 seq12 : Z) (randTail8 : list Z) : Buffer :=
  (packHead ts48 seq12 ++ setVariant randTail8)%list.

Definition _toBase64Url (buf : Buffer) : string :=
  stripTrailing "=" (replaceAll "/" "_" (replaceAll "+" "-" (toBase64 buf))).

(** [generateV7Base64Url] up to [const bytes = _packUuidV7(...)]. *)
Definition generateV7 (st : State) (clock : list Z) (e : Entropy)
  : Completion Buffer * State * list Z :=
  match clock with
  | [] => (Blocked, st, [])
  | ts :: clock' =>
      let step :=
        if ts =? lastMs st then
          let st := mkState (lastMs st) (Z.land (seq12 st + 1) 0x0fff) in
          if seq12 st =? 0 then
            match _waitNextMs ts clock' with
            | Some (ts, clock'') => (Some ts, st, clock'')
            | None => (None, st, [])
            end
          else (Some ts, st, clock')
        else (Some ts, mkState (lastMs st) (random12 e), clock') in
      match step with
      | (Some ts, st, clock'') =>
          let st := mkState ts (seq12 st) in
          (Return (_packUuidV7 ts (seq12 st) (randomTail8 e)), st, clock'')
      | (None, st, clock'') => (Blocked, st, clock'')
      end
  end.

Definition generateV7Base64Url (st : State) (clock : list Z) (e : Entropy)
  : Completion string * State * list Z :=
  let '(r, st, clock) := generateV7 st clock e in
  (match r with
   | Return bytes => Return (_toBase64Url bytes)
   | Throw message => Throw message
   | Blocked => Blocked
   end, st, clock).

End UuidV7Node.

Module UuidV7Web.
Import Runtime.

Definition _random12 (e : Entropy) : Z := Z.land (random12 e) 0x0fff.

Definition _packUuidV7 (ts48 seq12 : Z) (randTail8 : list Z) : Buffer :=
  (packHead ts48 seq12 ++ setVariant randTail8)%list.

Definition _toBase64Url (bytes : Buffer) : string :=
  stripTrailing "=" (replaceAll "/" "_" (replaceAll "+" "-" (toBase64 bytes))).

(** [generateV7Base64Url] up to [const bytes = _packUuidV7(...)]. *)
Definition generateV7 (st : State) (clock : list Z) (e : Entropy)
  : Completion Buffer * State * list Z :=
  match clock with
  | [] => (Blocked, st, [])
  | now :: clock' =>
      let ts := if now >? lastMs st then now else lastMs st in
      let '(ts, st) :=
        if ts =? lastMs st then
          let st := mkState (lastMs st) (Z.land (seq12 st + 1) 0x0fff) in
          if seq12 st =? 0 then (lastMs st + 1, st) else (ts, st)
        else (ts, mkState (lastMs st) (_random12 e)) in
      let st := mkState ts (seq12 st) in
      (Return (_packUuidV7 ts (seq12 st) (randomTail8 e)), st, clock')
  end.

Definition generateV7Base64Url (st : State) (clock : list Z) (e : Entropy)
  : Completion string * State * list Z :=
  let '(r, st, clock) := generateV7 st clock e in
  (match r with
   | Return bytes => Return (_toBase64Url bytes)
   | Throw message => Throw message
   | Blocked => Blocked
   end, st, clock).

End UuidV7Web.

(** ** Observations used by the properties *)

(** The timestamp a 6-byte or 16-byte value starts with. *)
Definition timestampOf (bytes : Buffer) : Z :=
  match bytes with
  | b0 :: b1 :: b2 :: b3 :: b4 :: b5 :: _ => Timestamp.readBigEndian48 b0 b1 b2 b3 b4 b5
  | _ => 0
  end.

(** The 12-bit sequence of a 16-byte value: low nibble of byte 6, byte 7. *)
Definition sequenceOf (bytes : Buffer) : Z :=
  Z.lor (Z.shiftl (Z.land (nth 6 bytes 0) 0x0f) 8) (nth 7 bytes 0).

(** Lexicographic order on (timestamp, counter) keys. *)
Definition keyLe (k1 k2 : Z * Z) : Prop :=
  fst k1 < fst k2 \/ (fst k1 = fst k2 /\ snd k1 <= snd k2).

(** [n] calls of the 48-bit [generate] in a row on one instance. *)
Fixpoint generateTimes (n : nat) (g : Timestamp.UUID48Timestamp) (clock : list Z)
  : list (Completion Buffer) * Timestamp.UUID48Timestamp * list Z :=
  match n with
  | O => ([], g, clock)
  | S n' =>
      let '(r, g, clock) := Timestamp.generate g clock in
      let '(rs, g, clock) := generateTimes n' g clock in
      (r :: rs, g, clock)
  end.

(** ** Predicates on the 48-bit generator used by the properties *)

Section Predicates48.
Import Timestamp.

(** The generator states the constructor can hand out and [generate] keeps. *)
Definition wellFormed (g : UUID48Timestamp) : Prop :=
  0 <= lastSystemTime g /\ 0 <= subMillisecondCounter g /\ 1 <= maxSubMs g <= 65536.

(** What every call establishes, whatever the strategy and the readings:
    the configuration is kept, [lastSystemTime] does not decrease, the
    counter stays non-negative, and a call that comes back hands the
    generator's [lastSystemTime] to [_timestampToBuffer]. *)
Definition callPost (g : UUID48Timestamp) (o : Outcome) : Prop :=
  let '(r, g', _) := o in
  maxSubMs g' = maxSubMs g /\ waitStrategy g' = waitStrategy g
  /\ lastSystemTime g <= lastSystemTime g'
  /\ (0 <= subMillisecondCounter g -> 0 <= subMillisecondCounter g')
  /\ (r = Blocked \/ r = _timestampToBuffer (lastSystemTime g')).

(** Past an overflow under the [Wait] strategy the generator is in a state
    from which both the polling loop and [generate] either run out of
    readings or end with a reset counter on a later millisecond. *)
Definition waiting (g : UUID48Timestamp) : Prop :=
  waitStrategy g = Wait /\ maxSubMs g <= subMillisecondCounter g.

Definition waitPost (g : UUID48Timestamp) (o : Outcome) : Prop :=
  let '(r, g', _) := o in
  (r = Blocked /\ waiting g' /\ lastSystemTime g' = lastSystemTime g)
  \/ (r <> Blocked /\ subMillisecondCounter g' = 0
      /\ lastSystemTime g < lastSystemTime g').

End Predicates48.

(** The timestamps of the buffers a run of calls returned, in order. *)
Definition emittedTimestamps (rs : list (Completion Buffer)) : list Z :=
  flat_map (fun r => match r with
                     | Return buf => [timestampOf buf]
                     | _ => []
                     end) rs.

(** The three format tokens of the facade. *)
Definition knownFormat (format : string) : Prop :=
  format = "base64url" \/ format = "hex" \/ format = "buffer".

(** The format a method of [TimestampGenerator] works with: its argument, or
    the default format when the argument is omitted. *)
Definition effectiveFormat (this : Index.TimestampGenerator) (format : option string)
  : string :=
  match format with Some f => f | None => Index.defaultFormat this end.

(** ** Canonical Base64 texts *)

(** A list of sextets is canonical when it is what some byte string encodes
    to: no dangling single sextet, and the bits of the last sextet that no
    byte uses are 0. *)
Fixpoint canonicalSextets (sextets : list Z) : bool :=
  match sextets with
  | _ :: _ :: _ :: _ :: rest => canonicalSextets rest
  | [_; _; r] => Z.land r 3 =? 0
  | [_; q] => Z.land q 15 =? 0
  | [_] => false
  | [] => true
  end.

Definition canonicalText (text : string) : bool :=
  canonicalSextets (Runtime.digits (list_ascii_of_string text)).

(** The canonical form of a list of sextets: a dangling single sextet is
    dropped and the bits of the last sextet that no byte uses are cleared. *)
Fixpoint canonicalSextetsOf (sextets : list Z) : list Z :=
  match sextets with
  | p :: q :: r :: s :: rest => p :: q :: r :: s :: canonicalSextetsOf rest
  | [p; q; r] => [p; q; Z.shiftl (Z.shiftr r 2) 2]
  | [p; q] => [p; Z.shiftl (Z.shiftr q 4) 4]
  | _ => []
  end.

(** The canonical padding-free form of a text of the URL-safe alphabet: the
    digits of the text made canonical, spelled in that alphabet. *)
Definition canonicalForm (text : string) : string :=
  string_of_list_ascii
    (map (fun d => Runtime.replaceChar "/" "_"
                     (Runtime.replaceChar "+" "-" (Runtime.b64char d)))
         (canonicalSextetsOf (Runtime.digits (list_ascii_of_string text)))).

(** Bytes and sextets as the codecs expect them. *)
Definition isByte (b : Z) : Prop := 0 <= b < 256.
Definition isSextet (d : Z) : Prop := 0 <= d < 64.

(** * Properties *)

(** ** Bit-level facts about the packed bytes *)

Section BitFacts.

Lemma lor_disjoint_add (x y k : Z) :
  0 <= k -> x mod 2 ^ k = 0 -> 0 <= y < 2 ^ k -> Z.lor x y = x + y.
Proof.
  intros Hk Hx Hy.
  assert (Hland : Z.land x y = 0).
  { apply Z.bits_inj'. intros n Hn.
    rewrite Z.land_spec, Z.bits_0.
    destruct (Z_lt_dec n k) as [Hlt | Hge].
    - assert (Hxn : Z.testbit x n = false).
      { rewrite (Z.div_mod x (2 ^ k)) by lia.
        rewrite Hx, Z.add_0_r, Z.mul_comm.
        apply Z.mul_pow2_bits_low; lia. }
      now rewrite Hxn.
    - assert (Hyn : Z.testbit y n = false).
      { destruct (Z.eq_dec y 0) as [-> | Hy0]; [apply Z.bits_0 |].
        apply Z.bits_above_log2; [lia |].
        apply Z.log2_lt_pow2; [lia |].
        apply Z.lt_le_trans with (2 ^ k); [lia |].
        apply Z.pow_le_mono_r; lia. }
      now rewrite Hyn, andb_false_r. }
  rewrite <- (Z.lxor_lor _ _ Hland).
  symmetry. now apply Z.add_nocarry_lxor.
Qed.

Lemma land_255 (x : Z) : Z.land x 255 = x mod 256.
Proof. change 255 with (Z.ones 8). now rewrite Z.land_ones by lia. Qed.

Lemma readBigEndian48_bytes (b0 b1 b2 b3 b4 b5 : Z) :
  0 <= b0 < 256 -> 0 <= b1 < 256 -> 0 <= b2 < 256 ->
  0 <= b3 < 256 -> 0 <= b4 < 256 -> 0 <= b5 < 256 ->
  Timestamp.readBigEndian48 b0 b1 b2 b3 b4 b5
  = b0 * 2 ^ 40 + b1 * 2 ^ 32 + b2 * 2 ^ 24 + b3 * 2 ^ 16 + b4 * 2 ^ 8 + b5.
Proof.
  intros. unfold Timestamp.readBigEndian48.
  rewrite !Z.shiftl_mul_pow2 by lia.
  rewrite (lor_disjoint_add (b0 * 2 ^ 40) (b1 * 2 ^ 32) 40); try lia.
  2: { change (2 ^ 40) with (2 ^ 40 * 1). rewrite Z.mul_1_r. apply Z.mod_mul. lia. }
  rewrite (lor_disjoint_add _ (b2 * 2 ^ 24) 32); try lia.
  2: { replace (b0 * 2 ^ 40 + b1 * 2 ^ 32) with ((b0 * 2 ^ 8 + b1) * 2 ^ 32) by lia.
       apply Z.mod_mul. lia. }
  rewrite (lor_disjoint_add _ (b3 * 2 ^ 16) 24); try lia.
  2: { replace (b0 * 2 ^ 40 + b1 * 2 ^ 32 + b2 * 2 ^ 24)
         with ((b0 * 2 ^ 16 + b1 * 2 ^ 8 + b2) * 2 ^ 24) by lia.
       apply Z.mod_mul. lia. }
  rewrite (lor_disjoint_add _ (b4 * 2 ^ 8) 16); try lia.
  2: { replace (b0 * 2 ^ 40 + b1 * 2 ^ 32 + b2 * 2 ^ 24 + b3 * 2 ^ 16)
         with ((b0 * 2 ^ 24 + b1 * 2 ^ 16 + b2 * 2 ^ 8 + b3) * 2 ^ 16) by lia.
       apply Z.mod_mul. lia. }
  rewrite (lor_disjoint_add _ b5 8); try lia.
  replace (b0 * 2 ^ 40 + b1 * 2 ^ 32 + b2 * 2 ^ 24 + b3 * 2 ^ 16 + b4 * 2 ^ 8)
    with ((b0 * 2 ^ 32 + b1 * 2 ^ 24 + b2 * 2 ^ 16 + b3 * 2 ^ 8 + b4) * 2 ^ 8) by lia.
  apply Z.mod_mul. lia.
Qed.

Lemma byte_of_range (x : Z) : 0 <= Z.land x 255 < 256.
Proof. rewrite land_255. apply Z.mod_pos_bound. lia. Qed.

(** Reading back the six bytes written for an in-range timestamp. *)
Lemma readBigEndian48_of_timestamp (ts : Z) :
  0 <= ts <= Timestamp.maxValue ->
  Timestamp.readBigEndian48
    (Z.land (Z.shiftr ts 40) 255) (Z.land (Z.shiftr ts 32) 255)
    (Z.land (Z.shiftr ts 24) 255) (Z.land (Z.shiftr ts 16) 255)
    (Z.land (Z.shiftr ts 8) 255) (Z.land ts 255) = ts.
Proof.
  unfold Timestamp.maxValue. intros Hts.
  rewrite readBigEndian48_bytes by apply byte_of_range.
  rewrite !land_255, !Z.shiftr_div_pow2 by lia.
  change (2 ^ 40) with 1099511627776. change (2 ^ 32) with 4294967296.
  change (2 ^ 24) with 16777216. change (2 ^ 16) with 65536. change (2 ^ 8) with 256.
  Z.to_euclidean_division_equations. lia.
Qed.

End BitFacts.

(** ** The 48-bit generator *)

Section Generator48.
Import Timestamp.

Lemma constructor_wellFormed (options : Options) (g : UUID48Timestamp) :
  constructor options = Return g ->
  wellFormed g /\ lastSystemTime g = 0 /\ subMillisecondCounter g = 0.
Proof.
  unfold constructor, wellFormed.
  destruct ((orDefaultZ (opt_maxSubMs options) 4096 <=? 0)
            || (orDefaultZ (opt_maxSubMs options) 4096 >? 65536)) eqn:Hrange;
    [discriminate |].
  apply orb_false_elim in Hrange as [Hlo Hhi].
  apply Z.leb_gt in Hlo. rewrite Z.gtb_ltb in Hhi. apply Z.ltb_ge in Hhi.
  destruct (String.eqb _ "increment");
    [| destruct (String.eqb _ "wait"); [| discriminate]];
    intros [= <-]; cbn; lia.
Qed.

Lemma _timestampToBuffer_in_range (ts : Z) :
  ts <= maxValue ->
  _timestampToBuffer ts
  = Return [ Z.land (Z.shiftr ts 40) 0xFF; Z.land (Z.shiftr ts 32) 0xFF;
             Z.land (Z.shiftr ts 24) 0xFF; Z.land (Z.shiftr ts 16) 0xFF;
             Z.land (Z.shiftr ts 8) 0xFF; Z.land ts 0xFF ].
Proof.
  intros H. unfold _timestampToBuffer.
  destruct (ts >? maxValue) eqn:E; [| reflexivity].
  rewrite Z.gtb_ltb in E. apply Z.ltb_lt in E. lia.
Qed.

Lemma _timestampToBuffer_out_of_range (ts : Z) :
  maxValue < ts ->
  _timestampToBuffer ts
  = Throw ("Timestamp " ++ showZ ts ++ " exceeds 48-bit limit (max: "
           ++ showZ maxValue ++ "). "
           ++ "This indicates system time is beyond year 8921. Check system clock configuration.").
Proof.
  intros H. unfold _timestampToBuffer.
  destruct (ts >? maxValue) eqn:E; [reflexivity |].
  rewrite Z.gtb_ltb in E. apply Z.ltb_ge in E. lia.
Qed.

Lemma timestampOf_emitted (ts : Z) (buf : Buffer) :
  0 <= ts -> _timestampToBuffer ts = Return buf ->
  ts <= maxValue /\ timestampOf buf = ts /\ List.length buf = 6%nat.
Proof.
  intros Hts Hbuf.
  destruct (Z_le_gt_dec ts maxValue) as [Hle | Hgt].
  - rewrite _timestampToBuffer_in_range in Hbuf by assumption.
    assert (Hb : buf = [ Z.land (Z.shiftr ts 40) 0xFF; Z.land (Z.shiftr ts 32) 0xFF;
             Z.land (Z.shiftr ts 24) 0xFF; Z.land (Z.shiftr ts 16) 0xFF;
             Z.land (Z.shiftr ts 8) 0xFF; Z.land ts 0xFF ]) by congruence.
    subst buf. unfold timestampOf.
    rewrite readBigEndian48_of_timestamp by (split; assumption). auto.
  - rewrite _timestampToBuffer_out_of_range in Hbuf by lia. discriminate.
Qed.

(** One reading, one dispatch: the equations of [generate]. *)
Lemma generate_new (g : UUID48Timestamp) (now : Z) (clock : list Z) :
  lastSystemTime g < now ->
  generate g (now :: clock)
  = (_timestampToBuffer now, mkGen now 0 (maxSubMs g) (waitStrategy g), clock).
Proof.
  intros H. cbn [generate].
  destruct (now =? lastSystemTime g) eqn:E; [apply Z.eqb_eq in E; lia |].
  destruct (now >? lastSystemTime g) eqn:E2; [reflexivity |].
  rewrite Z.gtb_ltb in E2. apply Z.ltb_ge in E2. lia.
Qed.

Lemma generate_backward (g : UUID48Timestamp) (now : Z) (clock : list Z) :
  now < lastSystemTime g ->
  generate g (now :: clock)
  = (_timestampToBuffer (lastSystemTime g + 1),
     mkGen (lastSystemTime g + 1) 0 (maxSubMs g) (waitStrategy g), clock).
Proof.
  intros H. cbn [generate].
  destruct (now =? lastSystemTime g) eqn:E; [apply Z.eqb_eq in E; lia |].
  destruct (now >? lastSystemTime g) eqn:E2; [| reflexivity].
  rewrite Z.gtb_ltb in E2. apply Z.ltb_lt in E2. lia.
Qed.

Lemma generate_same (g : UUID48Timestamp) (clock : list Z) :
  subMillisecondCounter g + 1 < maxSubMs g ->
  generate g (lastSystemTime g :: clock)
  = (_timestampToBuffer (lastSystemTime g),
     mkGen (lastSystemTime g) (subMillisecondCounter g + 1) (maxSubMs g) (waitStrategy g),
     clock).
Proof.
  intros H. cbn [generate]. rewrite Z.eqb_refl. cbn.
  destruct (subMillisecondCounter g + 1 >=? maxSubMs g) eqn:E; [| reflexivity].
  rewrite Z.geb_leb in E. apply Z.leb_le in E. lia.
Qed.

Lemma generate_overflow_increment (g : UUID48Timestamp) (clock : list Z) :
  maxSubMs g <= subMillisecondCounter g + 1 ->
  waitStrategy g = Increment ->
  generate g (lastSystemTime g :: clock)
  = (_timestampToBuffer (lastSystemTime g + 1),
     mkGen (lastSystemTime g + 1) 0 (maxSubMs g) Increment, clock).
Proof.
  intros H Hs. cbn [generate]. rewrite Z.eqb_refl. cbn.
  destruct (subMillisecondCounter g + 1 >=? maxSubMs g) eqn:E.
  - now rewrite Hs.
  - rewrite Z.geb_leb in E. apply Z.leb_gt in E. lia.
Qed.

Lemma generate_overflow_wait (g : UUID48Timestamp) (clock : list Z) :
  maxSubMs g <= subMillisecondCounter g + 1 ->
  waitStrategy g = Wait ->
  let g1 := mkGen (lastSystemTime g) (subMillisecondCounter g + 1) (maxSubMs g) Wait in
  generate g (lastSystemTime g :: clock)
  = _waitForNextMillisecond (generate g1) g1 clock.
Proof.
  intros H Hs. cbn [generate]. rewrite Z.eqb_refl. cbn.
  destruct (subMillisecondCounter g + 1 >=? maxSubMs g) eqn:E.
  - now rewrite Hs.
  - rewrite Z.geb_leb in E. apply Z.leb_gt in E. lia.
Qed.

Lemma callPost_counter (g : UUID48Timestamp) (c : Z) (o : Outcome) :
  subMillisecondCounter g <= c ->
  callPost (mkGen (lastSystemTime g) c (maxSubMs g) (waitStrategy g)) o ->
  callPost g o.
Proof.
  destruct o as [[r g'] clock']. unfold callPost. cbn.
  intros Hc (H1 & H2 & H3 & H4 & H5). repeat split; auto. intros; apply H4; lia.
Qed.

Lemma generate_and_wait_callPost (clock : list Z) :
  forall g, callPost g (generate g clock)
            /\ callPost g (_waitForNextMillisecond (generate g) g clock).
Proof.
  induction clock as [| now clock IH]; intros g.
  - cbn. repeat split; auto; lia.
  - split.
    + destruct (Z.lt_trichotomy now (lastSystemTime g)) as [Hlt | [Heq | Hgt]].
      * rewrite generate_backward by assumption. cbn. repeat split; auto; lia.
      * subst now.
        destruct (Z_lt_le_dec (subMillisecondCounter g + 1) (maxSubMs g)) as [Hin | Hov].
        -- rewrite generate_same by assumption. cbn. repeat split; auto; lia.
        -- destruct (waitStrategy g) eqn:Hs.
           ++ rewrite generate_overflow_increment by assumption.
              cbn. repeat split; auto; lia.
           ++ rewrite generate_overflow_wait by assumption. cbv zeta.
              apply callPost_counter with (c := subMillisecondCounter g + 1); [lia |].
              rewrite Hs. apply IH.
      * rewrite generate_new by lia. cbn. repeat split; auto; lia.
    + cbn [_waitForNextMillisecond].
      destruct (now =? lastSystemTime g); apply IH.
Qed.

Lemma generate_callPost (g : UUID48Timestamp) (clock : list Z) :
  callPost g (generate g clock).
Proof. apply generate_and_wait_callPost. Qed.

Lemma generate_wellFormed (g g' : UUID48Timestamp) (clock clock' : list Z)
      (r : Completion Buffer) :
  wellFormed g -> generate g clock = (r, g', clock') -> wellFormed g'.
Proof.
  intros (Hl & Hc & Hm) Hgen.
  pose proof (generate_callPost g clock) as Hpost. rewrite Hgen in Hpost.
  destruct Hpost as (H1 & H2 & H3 & H4 & H5).
  unfold wellFormed. rewrite H1. repeat split; try lia; auto.
Qed.

Lemma _timestampToBuffer_not_Blocked (ts : Z) : _timestampToBuffer ts <> Blocked.
Proof. unfold _timestampToBuffer. destruct (ts >? maxValue); discriminate. Qed.

Lemma waitPost_counter (g : UUID48Timestamp) (c : Z) (o : Outcome) :
  waitPost (mkGen (lastSystemTime g) c (maxSubMs g) (waitStrategy g)) o ->
  waitPost g o.
Proof. destruct o as [[r g'] clock']. unfold waitPost. cbn. tauto. Qed.

Lemma generate_and_wait_waitPost (clock : list Z) :
  forall g, waiting g ->
            waitPost g (generate g clock)
            /\ waitPost g (_waitForNextMillisecond (generate g) g clock).
Proof.
  induction clock as [| now clock IH]; intros g Hw.
  - cbn. split; left; auto.
  - pose proof Hw as [Hs Hc]. split.
    + destruct (Z.lt_trichotomy now (lastSystemTime g)) as [Hlt | [Heq | Hgt]].
      * rewrite generate_backward by assumption. right. cbn.
        repeat split; auto using _timestampToBuffer_not_Blocked; lia.
      * subst now. rewrite generate_overflow_wait by (assumption || lia). cbv zeta.
        apply waitPost_counter with (c := subMillisecondCounter g + 1).
        rewrite Hs. apply IH. split; cbn; [reflexivity | lia].
      * rewrite generate_new by lia. right. cbn.
        repeat split; auto using _timestampToBuffer_not_Blocked; lia.
    + cbn [_waitForNextMillisecond].
      destruct (now =? lastSystemTime g); now apply IH.
Qed.

End Generator48.

(** ** Claims about the 48-bit generator *)

Section Claims48.
Import Timestamp.

Lemma generateTimes_app (a b : nat) :
  forall g clock,
    generateTimes (a + b) g clock
    = let '(rs1, g1, clock1) := generateTimes a g clock in
      let '(rs2, g2, clock2) := generateTimes b g1 clock1 in
      ((rs1 ++ rs2)%list, g2, clock2).
Proof.
  induction a as [| a IH]; intros g clock; cbn [Nat.add generateTimes].
  - destruct (generateTimes b g clock) as [[rs2 g2] clock2]. reflexivity.
  - destruct (generate g clock) as [[r g1] clock1].
    rewrite IH.
    destruct (generateTimes a g1 clock1) as [[rs1 g1'] clock1'].
    destruct (generateTimes b g1' clock1') as [[rs2 g2] clock2]. reflexivity.
Qed.

(** [k] further calls inside the millisecond the generator is on, while the
    counter stays below [maxSubMs]. *)
Lemma generateTimes_same_millisecond (k : nat) :
  forall m c mx s rest,
    c + Z.of_nat k < mx ->
    generateTimes k (mkGen m c mx s) (repeat m k ++ rest)
    = (repeat (_timestampToBuffer m) k, mkGen m (c + Z.of_nat k) mx s, rest).
Proof.
  induction k as [| k IH]; intros m c mx s rest Hc.
  - cbn. now rewrite Z.add_0_r.
  - cbn [repeat app generateTimes].
    pose proof (generate_same (mkGen m c mx s) (repeat m k ++ rest)) as Hs.
    cbn [lastSystemTime subMillisecondCounter maxSubMs waitStrategy] in Hs.
    rewrite Hs by lia.
    rewrite IH by lia.
    f_equal. f_equal. f_equal. lia.
Qed.

(** C2 (overflow boundary).  With [maxSubMs = N] and the [Increment]
    strategy, when the clock reports one fresh millisecond [m] for every
    call, the first [N] calls emit [m] and call [N+1] emits [m + 1] and leaves
    the counter at 0. *)
Theorem C2_overflow_boundary (N : nat) (g : UUID48Timestamp) (m : Z) (rest : list Z) :
  (1 <= N)%nat -> maxSubMs g = Z.of_nat N -> waitStrategy g = Increment ->
  lastSystemTime g < m -> 0 <= m < maxValue ->
  exists bufm bufm1,
    generateTimes (S N) g (repeat m (S N) ++ rest)
    = ((repeat (Return bufm) N ++ [Return bufm1])%list,
       mkGen (m + 1) 0 (Z.of_nat N) Increment, rest)
    /\ timestampOf bufm = m /\ timestampOf bufm1 = m + 1.
Proof.
  intros HN Hmax Hstrat Hfresh Hm.
  destruct (_timestampToBuffer m) as [bufm | |] eqn:Em.
  2: { rewrite _timestampToBuffer_in_range in Em by lia. discriminate. }
  2: { rewrite _timestampToBuffer_in_range in Em by lia. discriminate. }
  destruct (_timestampToBuffer (m + 1)) as [bufm1 | |] eqn:Em1.
  2: { rewrite _timestampToBuffer_in_range in Em1 by lia. discriminate. }
  2: { rewrite _timestampToBuffer_in_range in Em1 by lia. discriminate. }
  exists bufm, bufm1.
  destruct (timestampOf_emitted m bufm) as (_ & Hm' & _); [lia | assumption |].
  destruct (timestampOf_emitted (m + 1) bufm1) as (_ & Hm1' & _); [lia | assumption |].
  split; [| now split].
  destruct N as [| n]; [lia |].
  replace (S (S n)) with (1 + (n + 1))%nat by lia.
  rewrite repeat_app, <- app_assoc.
  rewrite generateTimes_app.
  cbn [repeat app generateTimes].
  rewrite generate_new by assumption.
  rewrite Hmax, Hstrat, Em.
  rewrite repeat_app, <- app_assoc.
  rewrite generateTimes_app.
  rewrite generateTimes_same_millisecond by lia.
  cbn [repeat app generateTimes].
  pose proof (generate_overflow_increment
                (mkGen m (0 + Z.of_nat n) (Z.of_nat (S n)) Increment) rest) as Ho.
  cbn [lastSystemTime subMillisecondCounter maxSubMs waitStrategy] in Ho.
  rewrite Ho by (lia || reflexivity).
  rewrite Em, Em1.
  replace (n + 1)%nat with (S n) by lia.
  reflexivity.
Qed.

Lemma C2_overflow_boundary_witness :
  exists bufm bufm1,
    generateTimes 4 (mkGen 0 0 3 Increment) (repeat 1700000000000 4 ++ [])
    = ((repeat (Return bufm) 3 ++ [Return bufm1])%list,
       mkGen (1700000000000 + 1) 0 (Z.of_nat 3) Increment, [])
    /\ timestampOf bufm = 1700000000000 /\ timestampOf bufm1 = 1700000000000 + 1.
Proof.
  apply (C2_overflow_boundary 3 (mkGen 0 0 3 Increment) 1700000000000 []);
    cbn; unfold maxValue; try reflexivity; lia.
Defined.




(** C7, as the code has it.  With a non-negative counter, a call that comes
    back leaves the counter at 0 exactly when the reading is past
    [lastSystemTime], or behind it, or equal to it with the incremented
    counter reaching [maxSubMs]; in the remaining case, the same millisecond
    within the bound, the counter is incremented and is not 0. *)
Theorem C7_counter_reset_cases (g : UUID48Timestamp) (now : Z) (clock : list Z) :
  0 <= subMillisecondCounter g ->
  let '(r, g', _) := generate g (now :: clock) in
  r <> Blocked ->
  (subMillisecondCounter g' = 0
   <-> (lastSystemTime g < now \/ now < lastSystemTime g
        \/ (now = lastSystemTime g /\ maxSubMs g <= subMillisecondCounter g + 1)))
  /\ (lastSystemTime g < now -> subMillisecondCounter g' = 0)
  /\ (now = lastSystemTime g -> subMillisecondCounter g + 1 < maxSubMs g ->
      subMillisecondCounter g' = subMillisecondCounter g + 1).
Proof.
  intros Hc.
  destruct (Z.lt_trichotomy now (lastSystemTime g)) as [Hlt | [Heq | Hgt]].
  - rewrite generate_backward by assumption. intros _. cbn. repeat split; intros; lia.
  - subst now.
    destruct (Z_lt_le_dec (subMillisecondCounter g + 1) (maxSubMs g)) as [Hin | Hov].
    + rewrite generate_same by assumption. intros _. cbn. repeat split; intros; lia.
    + destruct (waitStrategy g) eqn:Hs.
      * rewrite generate_overflow_increment by assumption. intros _. cbn.
        repeat split; intros; lia.
      * rewrite generate_overflow_wait by assumption. cbv zeta.
        set (g1 := mkGen _ _ _ _).
        assert (Hw : waiting g1) by (split; cbn; [reflexivity | lia]).
        destruct (generate_and_wait_waitPost clock g1 Hw) as [_ Hpost].
        destruct (_waitForNextMillisecond (generate g1) g1 clock) as [[r g'] clock'].
        intros Hr. destruct Hpost as [(Hb & _) | (_ & H0 & _)]; [contradiction |].
        repeat split; intros; lia.
  - rewrite generate_new by lia. intros _. cbn. repeat split; intros; lia.
Qed.

Lemma C7_counter_reset_cases_witness :
  0 <= 3
  /\ let '(r, g', _) := generate (mkGen 10 3 4096 Wait) [10; 11] in
     r <> Blocked ->
     (subMillisecondCounter g' = 0
      <-> (10 < 10 \/ 10 < 10 \/ (10 = 10 /\ 4096 <= 3 + 1)))
     /\ (10 < 10 -> subMillisecondCounter g' = 0)
     /\ (10 = 10 -> 3 + 1 < 4096 -> subMillisecondCounter g' = 3 + 1).
Proof.
  split; [lia |].
  apply (C7_counter_reset_cases (mkGen 10 3 4096 Wait) 10 [11]). cbn. lia.
Defined.

(** C7, as stated, fails: a reading behind [lastSystemTime] resets the
    counter although the clock did not advance. *)
Lemma C7_reset_without_advance :
  let g := mkGen 10 3 4096 Increment in
  let '(_, g', _) := generate g [5] in
  ~ (subMillisecondCounter g' = 0 <-> lastSystemTime g < 5).
Proof. cbn. intros [H _]. specialize (H eq_refl). lia. Qed.

(** C10.  When the second of two calls reads the millisecond the generator
    is on after the first, and the incremented counter stays below
    [maxSubMs], the second call returns the same six bytes as the first; only
    the counter in the generator differs. *)
Theorem C10_same_millisecond_same_bytes
        (g g1 : UUID48Timestamp) (m : Z) (clock rest clock2 : list Z)
        (r1 : Completion Buffer) :
  generate g (m :: clock) = (r1, g1, rest) ->
  lastSystemTime g1 = m ->
  subMillisecondCounter g1 + 1 < maxSubMs g1 ->
  m <= maxValue ->
  exists buf,
    r1 = Return buf /\ List.length buf = 6%nat
    /\ generate g1 (m :: clock2)
       = (Return buf,
          mkGen m (subMillisecondCounter g1 + 1) (maxSubMs g1) (waitStrategy g1),
          clock2).
Proof.
  intros Hgen Hlast Hbound Hm.
  assert (Hr1 : r1 = _timestampToBuffer m).
  { pose proof (generate_callPost g (m :: clock)) as Hpost.
    rewrite Hgen in Hpost. destruct Hpost as (Hmax & Hstr & _ & _ & [Hb | Hr]).
    - exfalso. subst r1.
      destruct (Z.lt_trichotomy m (lastSystemTime g)) as [Hlt | [Heq | Hgt]].
      + rewrite generate_backward in Hgen by assumption.
        apply (_timestampToBuffer_not_Blocked (lastSystemTime g + 1)). congruence.
      + destruct (Z_lt_le_dec (subMillisecondCounter g + 1) (maxSubMs g)) as [Hin | Hov].
        * rewrite Heq in Hgen. rewrite generate_same in Hgen by assumption.
          apply (_timestampToBuffer_not_Blocked (lastSystemTime g)). congruence.
        * destruct (waitStrategy g) eqn:Hs.
          -- rewrite Heq in Hgen. rewrite generate_overflow_increment in Hgen by assumption.
             apply (_timestampToBuffer_not_Blocked (lastSystemTime g + 1)). congruence.
          -- rewrite Heq in Hgen. rewrite generate_overflow_wait in Hgen by assumption.
             cbv zeta in Hgen.
             set (gw := mkGen _ _ _ _) in Hgen.
             assert (Hw : waiting gw) by (split; cbn; [reflexivity | lia]).
             destruct (generate_and_wait_waitPost clock gw Hw) as [_ Hpost].
             rewrite Hgen in Hpost.
             destruct Hpost as [(_ & (_ & Hge) & _) | (Hnb & _)]; [lia | congruence].
      + rewrite generate_new in Hgen by lia.
        apply (_timestampToBuffer_not_Blocked m). congruence.
    - now rewrite Hr, Hlast. }
  rewrite _timestampToBuffer_in_range in Hr1 by assumption.
  eexists. split; [exact Hr1 |]. split; [reflexivity |].
  pose proof (generate_same g1 clock2 Hbound) as Hs.
  rewrite Hlast in Hs. rewrite Hs.
  now rewrite _timestampToBuffer_in_range by assumption.
Qed.

Lemma C10_same_millisecond_same_bytes_witness :
  exists buf,
    Return [0; 0; 0; 0; 0; 7] = Return buf /\ List.length buf = 6%nat
    /\ generate (mkGen 7 0 4096 Increment) (7 :: [])
       = (Return buf, mkGen 7 (0 + 1) 4096 Increment, []).
Proof.
  apply (C10_same_millisecond_same_bytes
           (mkGen 0 0 4096 Increment) (mkGen 7 0 4096 Increment) 7 [] [] []
           (Return [0; 0; 0; 0; 0; 7])).
  - reflexivity.
  - reflexivity.
  - cbn. lia.
  - unfold maxValue. lia.
Defined.

End Claims48.

(** ** Claims about the 128-bit generators *)

Section Claims128.

Lemma land_ones_range (x : Z) (k : Z) : 0 <= k -> 0 <= Z.land x (Z.ones k) < 2 ^ k.
Proof.
  intros Hk. rewrite Z.land_ones by assumption. apply Z.mod_pos_bound.
  apply Z.pow_pos_nonneg; lia.
Qed.

Lemma versionByte (seq12 : Z) :
  let b := Z.lor 0x70 (Z.land (Z.shiftr seq12 8) 0x0f) in
  0 <= b < 256 /\ Z.shiftr b 4 = 7.
Proof.
  cbv zeta.
  pose proof (land_ones_range (Z.shiftr seq12 8) 4 ltac:(lia)) as Hr.
  change (Z.ones 4) with 15 in Hr. change (2 ^ 4) with 16 in Hr.
  set (n := Z.land (Z.shiftr seq12 8) 15) in *.
  rewrite (lor_disjoint_add 0x70 n 4) by (try reflexivity; lia).
  split; [lia |].
  rewrite Z.shiftr_div_pow2 by lia. change (2 ^ 4) with 16.
  Z.to_euclidean_division_equations. lia.
Qed.

Lemma variantByte (t0 : Z) :
  let b := Z.lor (Z.land t0 0x3f) 0x80 in
  0 <= b < 256 /\ Z.shiftr b 6 = 2.
Proof.
  cbv zeta.
  pose proof (land_ones_range t0 6 ltac:(lia)) as Hr.
  change (Z.ones 6) with 63 in Hr. change (2 ^ 6) with 64 in Hr.
  set (n := Z.land t0 63) in *.
  rewrite Z.lor_comm.
  rewrite (lor_disjoint_add 0x80 n 6) by (try reflexivity; lia).
  split; [lia |].
  rewrite Z.shiftr_div_pow2 by lia. change (2 ^ 6) with 64.
  Z.to_euclidean_division_equations. lia.
Qed.


Lemma pack_version_variant (ts48 seq : Z) (tail : list Z) :
  List.length tail = 8%nat ->
  let bytes := (packHead ts48 seq ++ setVariant tail)%list in
  List.length bytes = 16%nat
  /\ (0 <= nth 6 bytes 0 < 256 /\ Z.shiftr (nth 6 bytes 0) 4 = 7)
  /\ (0 <= nth 8 bytes 0 < 256 /\ Z.shiftr (nth 8 bytes 0) 6 = 2).
Proof.
  intros Hlen. destruct tail as [| t0 rest]; [discriminate |].
  cbv zeta. unfold packHead, setVariant. cbn [app nth List.length].
  cbn [List.length] in Hlen.
  split; [lia |]. split; [apply versionByte | apply variantByte].
Qed.

(** The equations of the web generator: one reading per call. *)
Lemma web_generateV7_eq (st : State) (now : Z) (clock : list Z) (e : Entropy) :
  UuidV7Web.generateV7 st (now :: clock) e
  = if lastMs st <? now then
      (Return (UuidV7Web._packUuidV7 now (UuidV7Web._random12 e) (randomTail8 e)),
       mkState now (UuidV7Web._random12 e), clock)
    else
      let s' := Z.land (seq12 st + 1) 0x0fff in
      let ts := if s' =? 0 then lastMs st + 1 else lastMs st in
      (Return (UuidV7Web._packUuidV7 ts s' (randomTail8 e)), mkState ts s', clock).
Proof.
  unfold UuidV7Web.generateV7. rewrite Z.gtb_ltb.
  destruct (lastMs st <? now) eqn:Hlt.
  - apply Z.ltb_lt in Hlt.
    destruct (now =? lastMs st) eqn:E; [apply Z.eqb_eq in E; lia | reflexivity].
  - rewrite Z.eqb_refl. cbn [seq12 lastMs]. cbv zeta.
    destruct (Z.land (seq12 st + 1) 4095 =? 0); reflexivity.
Qed.

Lemma _waitNextMs_later (currentMs : Z) (clock clock' : list Z) (t : Z) :
  UuidV7Node._waitNextMs currentMs clock = Some (t, clock') -> currentMs < t.
Proof.
  induction clock as [| x clock IH]; cbn; [discriminate |].
  destruct (x <=? currentMs) eqn:E; [exact IH |].
  intros [= <- <-]. apply Z.leb_gt in E. lia.
Qed.

Lemma Return_inj {A : Type} (a b : A) : Return a = Return b -> a = b.
Proof. congruence. Qed.

(** The equations of the Node generator. *)
Lemma node_generateV7_eq (st : State) (ts : Z) (clock : list Z) (e : Entropy) :
  UuidV7Node.generateV7 st (ts :: clock) e
  = if ts =? lastMs st then
      let s' := Z.land (seq12 st + 1) 0x0fff in
      if s' =? 0 then
        match UuidV7Node._waitNextMs ts clock with
        | Some (t, clock') =>
            (Return (UuidV7Node._packUuidV7 t s' (randomTail8 e)), mkState t s', clock')
        | None => (Blocked, mkState (lastMs st) s', [])
        end
      else (Return (UuidV7Node._packUuidV7 ts s' (randomTail8 e)), mkState ts s', clock)
    else
      (Return (UuidV7Node._packUuidV7 ts (random12 e) (randomTail8 e)),
       mkState ts (random12 e), clock).
Proof.
  unfold UuidV7Node.generateV7.
  destruct (ts =? lastMs st); [| reflexivity].
  cbn [seq12 lastMs]. cbv zeta.
  destruct (Z.land (seq12 st + 1) 4095 =? 0); [| reflexivity].
  destruct (UuidV7Node._waitNextMs ts clock) as [[t clock'] |]; reflexivity.
Qed.

(** The Node generator on a reading equal to [lastMs] whose sequence wraps. *)
Lemma node_generateV7_overflow (st : State) (clock : list Z) (e : Entropy) :
  Z.land (seq12 st + 1) 0x0fff = 0 ->
  UuidV7Node.generateV7 st (lastMs st :: clock) e
  = match UuidV7Node._waitNextMs (lastMs st) clock with
    | Some (t, clock') =>
        (Return (UuidV7Node._packUuidV7 t 0 (randomTail8 e)), mkState t 0, clock')
    | None => (Blocked, mkState (lastMs st) 0, [])
    end.
Proof.
  intros Hwrap. rewrite node_generateV7_eq, Z.eqb_refl. cbv zeta.
  rewrite Hwrap. reflexivity.
Qed.

Lemma generateV7_packs (st : State) (clock : list Z) (e : Entropy) (bytes : Buffer) :
  fst (fst (UuidV7Node.generateV7 st clock e)) = Return bytes
  \/ fst (fst (UuidV7Web.generateV7 st clock e)) = Return bytes ->
  exists ts48 seq, bytes = (packHead ts48 seq ++ setVariant (randomTail8 e))%list.
Proof.
  intros [H | H].
  - destruct clock as [| ts clock]; [discriminate |].
    rewrite node_generateV7_eq in H.
    destruct (ts =? lastMs st); cbv zeta in H.
    + destruct (Z.land (seq12 st + 1) 4095 =? 0).
      * destruct (UuidV7Node._waitNextMs ts clock) as [[t clock'] |];
          cbn [fst] in H; [| discriminate].
        apply Return_inj in H. subst bytes. unfold UuidV7Node._packUuidV7. eauto.
      * cbn [fst] in H. apply Return_inj in H. subst bytes.
        unfold UuidV7Node._packUuidV7. eauto.
    + cbn [fst] in H. apply Return_inj in H. subst bytes.
      unfold UuidV7Node._packUuidV7. eauto.
  - destruct clock as [| now clock]; [discriminate |].
    rewrite web_generateV7_eq in H.
    destruct (lastMs st <? now); cbv zeta in H; cbn [fst] in H;
      apply Return_inj in H; subst bytes; unfold UuidV7Web._packUuidV7; eauto.
Qed.

(** C9.  Whatever the clock readings, the sequence and the random bytes, a
    16-byte value returned by either 128-bit generator has the version nibble
    0111 on top of byte 6 and the variant bits 10 on top of byte 8. *)
Theorem C9_version_and_variant
        (st : State) (clock : list Z) (e : Entropy) (bytes : Buffer) :
  List.length (randomTail8 e) = 8%nat ->
  fst (fst (UuidV7Node.generateV7 st clock e)) = Return bytes
  \/ fst (fst (UuidV7Web.generateV7 st clock e)) = Return bytes ->
  List.length bytes = 16%nat
  /\ (0 <= nth 6 bytes 0 < 256 /\ Z.shiftr (nth 6 bytes 0) 4 = 7)
  /\ (0 <= nth 8 bytes 0 < 256 /\ Z.shiftr (nth 8 bytes 0) 6 = 2).
Proof.
  intros Hlen Hgen.
  destruct (generateV7_packs st clock e bytes Hgen) as (ts48 & seq & ->).
  now apply pack_version_variant.
Qed.

Lemma C9_version_and_variant_witness :
  let bytes := [0; 0; 0; 0; 0; 5; 112; 7; 129; 2; 3; 4; 5; 6; 7; 8] in
  List.length bytes = 16%nat
  /\ (0 <= nth 6 bytes 0 < 256 /\ Z.shiftr (nth 6 bytes 0) 4 = 7)
  /\ (0 <= nth 8 bytes 0 < 256 /\ Z.shiftr (nth 8 bytes 0) 6 = 2).
Proof.
  apply (C9_version_and_variant _state [5] (mkEntropy 7 [1; 2; 3; 4; 5; 6; 7; 8])).
  - reflexivity.
  - left. reflexivity.
Defined.

(** C1 on the Node generator: after an identifier for millisecond 5 a clock
    reading of 3 yields an identifier for millisecond 3, so the keys
    decrease. *)
Lemma C1_node_follows_clock_backward :
  let e := mkEntropy 7 [1; 2; 3; 4; 5; 6; 7; 8] in
  let '(r1, st1, _) := UuidV7Node.generateV7 _state [5] e in
  let '(r2, st2, _) := UuidV7Node.generateV7 st1 [3] e in
  exists b1 b2,
    r1 = Return b1 /\ r2 = Return b2
    /\ timestampOf b1 = 5 /\ timestampOf b2 = 3 /\ lastMs st2 = 3
    /\ ~ keyLe (timestampOf b1, sequenceOf b1) (timestampOf b2, sequenceOf b2).
Proof.
  vm_compute.
  do 2 eexists. repeat split; try reflexivity.
  intros [H | [H _]]; discriminate H.
Qed.

(** C3, as stated, fails on the web generator: a reading behind [lastMs]
    leaves [lastMs] where it is and advances the sequence. *)
Lemma C3_web_keeps_lastMs :
  let e := mkEntropy 7 [1; 2; 3; 4; 5; 6; 7; 8] in
  let st := mkState 5 0 in
  let '(_, st', _) := UuidV7Web.generateV7 st [3] e in
  3 < lastMs st /\ ~ (lastMs st' = lastMs st + 1 /\ seq12 st' = 0).
Proof. vm_compute. split; [reflexivity |]. intros [H _]. discriminate H. Qed.

Lemma timestampOf_pack_in_range (ts48 seq : Z) (tail : list Z) :
  0 <= ts48 <= Timestamp.maxValue ->
  timestampOf (packHead ts48 seq ++ setVariant tail)%list = ts48.
Proof.
  intros Hts. unfold packHead, timestampOf. cbn [app].
  now apply readBigEndian48_of_timestamp.
Qed.

(** C3, as the code has it.  On a reading behind the last timestamp the
    48-bit generator moves [lastSystemTime] one millisecond on, resets the
    counter and hands that timestamp to [_timestampToBuffer], which returns
    the six bytes encoding it when it is within 48 bits.  The web 128-bit
    generator keeps [lastMs] and advances the sequence, moving one
    millisecond on only when the sequence wraps; its [lastMs] does not
    decrease, and while the new [lastMs] is within 48 bits the packed
    timestamp is that [lastMs], not less than the timestamp packed for the
    old one. *)
Theorem C3_clock_backward
        (g : Timestamp.UUID48Timestamp) (st : State) (now : Z) (clock : list Z)
        (e : Entropy) :
  now < Timestamp.lastSystemTime g -> now < lastMs st ->
  (Timestamp.generate g (now :: clock)
   = (Timestamp._timestampToBuffer (Timestamp.lastSystemTime g + 1),
      Timestamp.mkGen (Timestamp.lastSystemTime g + 1) 0
                      (Timestamp.maxSubMs g) (Timestamp.waitStrategy g), clock)
   /\ (0 <= Timestamp.lastSystemTime g < Timestamp.maxValue ->
       exists buf,
         Timestamp._timestampToBuffer (Timestamp.lastSystemTime g + 1) = Return buf
         /\ timestampOf buf = Timestamp.lastSystemTime g + 1))
  /\ (let s' := Z.land (seq12 st + 1) 0x0fff in
      let ts := if s' =? 0 then lastMs st + 1 else lastMs st in
      UuidV7Web.generateV7 st (now :: clock) e
      = (Return (UuidV7Web._packUuidV7 ts s' (randomTail8 e)), mkState ts s', clock)
      /\ lastMs st <= ts
      /\ (0 <= lastMs st -> ts <= Timestamp.maxValue ->
          timestampOf (UuidV7Web._packUuidV7 ts s' (randomTail8 e)) = ts
          /\ forall seq0 tail0,
              timestampOf (UuidV7Web._packUuidV7 (lastMs st) seq0 tail0)
              <= timestampOf (UuidV7Web._packUuidV7 ts s' (randomTail8 e)))).
Proof.
  intros Hg Hst. split; [split |].
  - now apply generate_backward.
  - intros Hrange.
    destruct (Timestamp._timestampToBuffer (Timestamp.lastSystemTime g + 1))
      as [buf | |] eqn:E.
    + exists buf. split; [reflexivity |].
      now apply (timestampOf_emitted (Timestamp.lastSystemTime g + 1) buf); [lia |].
    + rewrite _timestampToBuffer_in_range in E by lia. discriminate.
    + rewrite _timestampToBuffer_in_range in E by lia. discriminate.
  - cbv zeta. rewrite web_generateV7_eq.
    destruct (lastMs st <? now) eqn:Hlt; [apply Z.ltb_lt in Hlt; lia |].
    cbv zeta. split; [reflexivity |].
    assert (Hle : lastMs st
                  <= (if Z.land (seq12 st + 1) 4095 =? 0 then lastMs st + 1 else lastMs st))
      by (destruct (Z.land (seq12 st + 1) 4095 =? 0); lia).
    split; [exact Hle |].
    intros Hlo Hhi. unfold UuidV7Web._packUuidV7.
    rewrite timestampOf_pack_in_range by lia.
    split; [reflexivity |].
    intros seq0 tail0. rewrite timestampOf_pack_in_range by lia. exact Hle.
Qed.

Lemma C3_clock_backward_witness :
  (Timestamp.generate (Timestamp.mkGen 10 3 4096 Timestamp.Increment) (5 :: [])
   = (Timestamp._timestampToBuffer (10 + 1),
      Timestamp.mkGen (10 + 1) 0 4096 Timestamp.Increment, [])
   /\ (0 <= 10 < Timestamp.maxValue ->
       exists buf,
         Timestamp._timestampToBuffer (10 + 1) = Return buf
         /\ timestampOf buf = 10 + 1))
  /\ (let s' := Z.land (4095 + 1) 0x0fff in
      let ts := if s' =? 0 then 9 + 1 else 9 in
      UuidV7Web.generateV7 (mkState 9 4095) (5 :: []) (mkEntropy 7 [1; 2; 3; 4; 5; 6; 7; 8])
      = (Return (UuidV7Web._packUuidV7 ts s' [1; 2; 3; 4; 5; 6; 7; 8]), mkState ts s', [])
      /\ 9 <= ts
      /\ (0 <= 9 -> ts <= Timestamp.maxValue ->
          timestampOf (UuidV7Web._packUuidV7 ts s' [1; 2; 3; 4; 5; 6; 7; 8]) = ts
          /\ forall seq0 tail0,
              timestampOf (UuidV7Web._packUuidV7 9 seq0 tail0)
              <= timestampOf (UuidV7Web._packUuidV7 ts s' [1; 2; 3; 4; 5; 6; 7; 8]))).
Proof.
  apply (C3_clock_backward (Timestamp.mkGen 10 3 4096 Timestamp.Increment)
                           (mkState 9 4095) 5 []
                           (mkEntropy 7 [1; 2; 3; 4; 5; 6; 7; 8])); cbn; lia.
Defined.

(** C6, as stated, fails on the Node generator: when the sequence wraps it
    polls the clock until a later millisecond shows up and takes that one,
    and it is still polling when the readings run out. *)
Lemma C6_node_polls_the_clock :
  let e := mkEntropy 7 [1; 2; 3; 4; 5; 6; 7; 8] in
  let st := mkState 5 4095 in
  (let '(_, st', rest) := UuidV7Node.generateV7 st [5; 5; 5; 9; 10] e in
   seq12 st' = 0 /\ lastMs st' <> lastMs st + 1 /\ rest = [10])
  /\ fst (fst (UuidV7Node.generateV7 st [5; 5; 5] e)) = Blocked.
Proof. vm_compute. repeat split. intros H. discriminate H. Qed.

(** C6, as the code has it.  When the sequence wraps to 0, the web
    generator, on a reading not past [lastMs], takes [lastMs + 1] and
    returns after that single reading; whatever the state, a call of the web
    generator consumes exactly one reading.  The Node generator, on a reading
    equal to [lastMs], polls the clock with [_waitNextMs] and takes the first
    reading that is strictly later. *)
Theorem C6_sequence_overflow
        (st : State) (now : Z) (clock : list Z) (e : Entropy) :
  Z.land (seq12 st + 1) 0x0fff = 0 ->
  now <= lastMs st ->
  UuidV7Web.generateV7 st (now :: clock) e
  = (Return (UuidV7Web._packUuidV7 (lastMs st + 1) 0 (randomTail8 e)),
     mkState (lastMs st + 1) 0, clock)
  /\ (forall st0 now0, exists bytes st',
         UuidV7Web.generateV7 st0 (now0 :: clock) e = (Return bytes, st', clock))
  /\ UuidV7Node.generateV7 st (lastMs st :: clock) e
     = match UuidV7Node._waitNextMs (lastMs st) clock with
       | Some (t, clock') =>
           (Return (UuidV7Node._packUuidV7 t 0 (randomTail8 e)), mkState t 0, clock')
       | None => (Blocked, mkState (lastMs st) 0, [])
       end
  /\ (forall t clock',
         UuidV7Node._waitNextMs (lastMs st) clock = Some (t, clock') -> lastMs st < t).
Proof.
  intros Hwrap Hnow. repeat split.
  - rewrite web_generateV7_eq.
    destruct (lastMs st <? now) eqn:Hlt; [apply Z.ltb_lt in Hlt; lia |].
    cbv zeta. now rewrite Hwrap.
  - intros st0 now0. rewrite web_generateV7_eq.
    destruct (lastMs st0 <? now0); cbv zeta; eauto.
  - now apply node_generateV7_overflow.
  - intros t clock'. apply _waitNextMs_later.
Qed.

Lemma C6_sequence_overflow_witness :
  let st := mkState 5 4095 in
  let e := mkEntropy 7 [1; 2; 3; 4; 5; 6; 7; 8] in
  let clock := [5; 9] in
  UuidV7Web.generateV7 st (3 :: clock) e
  = (Return (UuidV7Web._packUuidV7 (lastMs st + 1) 0 (randomTail8 e)),
     mkState (lastMs st + 1) 0, clock)
  /\ (forall st0 now0, exists bytes st',
         UuidV7Web.generateV7 st0 (now0 :: clock) e = (Return bytes, st', clock))
  /\ UuidV7Node.generateV7 st (lastMs st :: clock) e
     = match UuidV7Node._waitNextMs (lastMs st) clock with
       | Some (t, clock') =>
           (Return (UuidV7Node._packUuidV7 t 0 (randomTail8 e)), mkState t 0, clock')
       | None => (Blocked, mkState (lastMs st) 0, [])
       end
  /\ (forall t clock',
         UuidV7Node._waitNextMs (lastMs st) clock = Some (t, clock') -> lastMs st < t).
Proof.
  apply (C6_sequence_overflow (mkState 5 4095) 3 [5; 9]
                              (mkEntropy 7 [1; 2; 3; 4; 5; 6; 7; 8])).
  - reflexivity.
  - cbn. lia.
Defined.

End Claims128.

(** ** Claims about the format facade *)

Section ClaimsFacade.
Import Base64URL Index.



(** [validate] never throws: the [catch] turns every error into [false]. *)
Lemma validate_returns (timestamp : JsValue) (format : string) :
  exists b, validate timestamp format = Return b.
Proof.
  unfold validate, validateSwitch.
  destruct timestamp; eauto;
    repeat match goal with
           | |- context [if ?b then _ else _] => destruct b
           end; eauto.
Qed.










End ClaimsFacade.

(** ** Sextets and bytes *)

Section SextetFacts.
Import Runtime.

Lemma land_3 (x : Z) : Z.land x 3 = x mod 4.
Proof. change 3 with (Z.ones 2). now rewrite Z.land_ones by lia. Qed.

Lemma land_15 (x : Z) : Z.land x 15 = x mod 16.
Proof. change 15 with (Z.ones 4). now rewrite Z.land_ones by lia. Qed.

Lemma land_63 (x : Z) : Z.land x 63 = x mod 64.
Proof. change 63 with (Z.ones 6). now rewrite Z.land_ones by lia. Qed.

Lemma lor_shifted (hi lo k : Z) :
  0 <= k -> 0 <= lo < 2 ^ k -> Z.lor (Z.shiftl hi k) lo = hi * 2 ^ k + lo.
Proof.
  intros Hk Hlo. rewrite Z.shiftl_mul_pow2 by assumption.
  apply lor_disjoint_add with (k := k); try assumption.
  apply Z.mod_mul. apply Z.pow_nonzero; lia.
Qed.

Ltac to_arith :=
  rewrite ?land_3, ?land_15, ?land_63, ?Z.shiftr_div_pow2 by lia;
  change (2 ^ 2) with 4; change (2 ^ 4) with 16; change (2 ^ 6) with 64.

Lemma sextet2_arith (a b : Z) :
  isByte b ->
  Z.lor (Z.shiftl (Z.land a 3) 4) (Z.shiftr b 4) = (a mod 4) * 16 + b / 16.
Proof.
  unfold isByte. intros Hb. to_arith.
  rewrite lor_shifted; change (2 ^ 4) with 16; try lia.
  Z.to_euclidean_division_equations; lia.
Qed.

Lemma sextet3_arith (b c : Z) :
  isByte c ->
  Z.lor (Z.shiftl (Z.land b 15) 2) (Z.shiftr c 6) = (b mod 16) * 4 + c / 64.
Proof.
  unfold isByte. intros Hc. to_arith.
  rewrite lor_shifted; change (2 ^ 2) with 4; try lia.
  Z.to_euclidean_division_equations; lia.
Qed.

Lemma byte1_arith (p q : Z) :
  isSextet q -> Z.lor (Z.shiftl p 2) (Z.shiftr q 4) = p * 4 + q / 16.
Proof.
  unfold isSextet. intros Hq. to_arith.
  rewrite lor_shifted; change (2 ^ 2) with 4; try lia.
  Z.to_euclidean_division_equations; lia.
Qed.

Lemma byte2_arith (q r : Z) :
  isSextet r ->
  Z.lor (Z.shiftl (Z.land q 15) 4) (Z.shiftr r 2) = (q mod 16) * 16 + r / 4.
Proof.
  unfold isSextet. intros Hr. to_arith.
  rewrite lor_shifted; change (2 ^ 4) with 16; try lia.
  Z.to_euclidean_division_equations; lia.
Qed.

Lemma byte3_arith (r s : Z) :
  isSextet s -> Z.lor (Z.shiftl (Z.land r 3) 6) s = (r mod 4) * 64 + s.
Proof.
  unfold isSextet. intros Hs. to_arith.
  rewrite lor_shifted; change (2 ^ 6) with 64; lia.
Qed.

(** Induction three, and four, elements at a time. *)
Lemma list_ind_by3 {A : Type} (P : list A -> Prop) :
  P [] -> (forall a, P [a]) -> (forall a b, P [a; b]) ->
  (forall a b c rest, P rest -> P (a :: b :: c :: rest)) ->
  forall l, P l.
Proof.
  intros H0 H1 H2 H3.
  assert (H : forall l, P l /\ (forall a, P (a :: l)) /\ (forall a b, P (a :: b :: l))).
  { induction l as [| x l (IH0 & IH1 & IH2)]; auto. }
  intros l. apply H.
Qed.

Lemma list_ind_by4 {A : Type} (P : list A -> Prop) :
  P [] -> (forall a, P [a]) -> (forall a b, P [a; b]) -> (forall a b c, P [a; b; c]) ->
  (forall a b c d rest, P rest -> P (a :: b :: c :: d :: rest)) ->
  forall l, P l.
Proof.
  intros H0 H1 H2 H3 H4.
  assert (H : forall l, P l /\ (forall a, P (a :: l)) /\ (forall a b, P (a :: b :: l))
                        /\ (forall a b c, P (a :: b :: c :: l))).
  { induction l as [| x l (IH0 & IH1 & IH2 & IH3)]; auto 6. }
  intros l. apply H.
Qed.

Ltac bytes_hyps :=
  repeat match goal with
         | H : Forall _ (_ :: _) |- _ => inversion H; subst; clear H
         | H : Forall _ [] |- _ => clear H
         end.

Lemma bytesToSextets_range (bytes : list Z) :
  Forall isByte bytes -> Forall isSextet (bytesToSextets bytes).
Proof.
  induction bytes as [| a | a b | a b c rest IH] using list_ind_by3;
    intros H; bytes_hyps; cbn [bytesToSextets].
  - constructor.
  - repeat constructor; unfold isSextet, isByte in *; to_arith;
      rewrite ?Z.shiftl_mul_pow2 by lia; change (2 ^ 4) with 16;
      Z.to_euclidean_division_equations; lia.
  - rewrite sextet2_arith by assumption.
    repeat constructor; unfold isSextet, isByte in *; to_arith;
      rewrite ?Z.shiftl_mul_pow2 by lia; change (2 ^ 2) with 4;
      Z.to_euclidean_division_equations; lia.
  - rewrite sextet2_arith, sextet3_arith by assumption.
    repeat (constructor; [unfold isSextet, isByte in *; to_arith;
                          Z.to_euclidean_division_equations; lia |]).
    now apply IH.
Qed.

Lemma bytesToSextets_length (bytes : list Z) :
  bytes <> [] -> bytesToSextets bytes <> [].
Proof.
  destruct bytes as [| a [| b [| c rest]]]; cbn [bytesToSextets]; congruence.
Qed.

(** Decoding the sextets of a byte string gives the byte string back. *)
Lemma sextetsToBytes_bytesToSextets (bytes : list Z) :
  Forall isByte bytes -> sextetsToBytes (bytesToSextets bytes) = bytes.
Proof.
  induction bytes as [| a | a b | a b c rest IH] using list_ind_by3;
    intros H; bytes_hyps; cbn [bytesToSextets sextetsToBytes].
  - reflexivity.
  - assert (Hq : isSextet (Z.shiftl (Z.land a 3) 4)).
    { unfold isSextet, isByte in *. to_arith. rewrite Z.shiftl_mul_pow2 by lia.
      change (2 ^ 4) with 16. Z.to_euclidean_division_equations; lia. }
    rewrite byte1_arith by assumption.
    unfold isByte in *. to_arith. rewrite Z.shiftl_mul_pow2 by lia. change (2 ^ 4) with 16.
    f_equal. Z.to_euclidean_division_equations; lia.
  - rewrite sextet2_arith by assumption.
    assert (Hq : isSextet ((a mod 4) * 16 + b / 16))
      by (unfold isSextet, isByte in *; Z.to_euclidean_division_equations; lia).
    assert (Hr : isSextet (Z.shiftl (Z.land b 15) 2)).
    { unfold isSextet, isByte in *. to_arith. rewrite Z.shiftl_mul_pow2 by lia.
      change (2 ^ 2) with 4. Z.to_euclidean_division_equations; lia. }
    rewrite byte1_arith, byte2_arith by assumption.
    unfold isByte in *. to_arith. rewrite Z.shiftl_mul_pow2 by lia. change (2 ^ 2) with 4.
    f_equal; [| f_equal]; Z.to_euclidean_division_equations; lia.
  - rewrite sextet2_arith, sextet3_arith by assumption.
    assert (Hq : isSextet ((a mod 4) * 16 + b / 16))
      by (unfold isSextet, isByte in *; Z.to_euclidean_division_equations; lia).
    assert (Hr : isSextet ((b mod 16) * 4 + c / 64))
      by (unfold isSextet, isByte in *; Z.to_euclidean_division_equations; lia).
    assert (Hs : isSextet (Z.land c 63))
      by (unfold isSextet, isByte in *; to_arith; Z.to_euclidean_division_equations; lia).
    rewrite byte1_arith, byte2_arith, byte3_arith by assumption.
    rewrite IH by assumption.
    unfold isByte in *. to_arith.
    f_equal; [| f_equal; [| f_equal]]; Z.to_euclidean_division_equations; lia.
Qed.

(** Encoding the bytes of a canonical list of sextets gives the list back. *)
Lemma bytesToSextets_sextetsToBytes (sextets : list Z) :
  Forall isSextet sextets -> canonicalSextets sextets = true ->
  bytesToSextets (sextetsToBytes sextets) = sextets.
Proof.
  induction sextets as [| p | p q | p q r | p q r s rest IH] using list_ind_by4;
    intros H Hc; bytes_hyps; cbn [canonicalSextets] in Hc;
    cbn [bytesToSextets sextetsToBytes].
  - reflexivity.
  - discriminate.
  - apply Z.eqb_eq in Hc. rewrite land_15 in Hc.
    rewrite byte1_arith by assumption. unfold isSextet in *. to_arith.
    rewrite Z.shiftl_mul_pow2 by lia. change (2 ^ 4) with 16.
    f_equal; [| f_equal]; Z.to_euclidean_division_equations; lia.
  - apply Z.eqb_eq in Hc. rewrite land_3 in Hc.
    rewrite byte1_arith, byte2_arith by assumption.
    assert (Hb : isByte ((q mod 16) * 16 + r / 4))
      by (unfold isSextet, isByte in *; Z.to_euclidean_division_equations; lia).
    rewrite sextet2_arith by assumption.
    unfold isSextet in *. to_arith. rewrite Z.shiftl_mul_pow2 by lia. change (2 ^ 2) with 4.
    f_equal; [| f_equal; [| f_equal]]; Z.to_euclidean_division_equations; lia.
  - rewrite byte1_arith, byte2_arith, byte3_arith by assumption.
    assert (Hb : isByte ((q mod 16) * 16 + r / 4))
      by (unfold isSextet, isByte in *; Z.to_euclidean_division_equations; lia).
    assert (Hc' : isByte ((r mod 4) * 64 + s))
      by (unfold isSextet, isByte in *; Z.to_euclidean_division_equations; lia).
    rewrite sextet2_arith, sextet3_arith by assumption.
    rewrite IH by assumption.
    unfold isSextet in *. to_arith.
    f_equal; [| f_equal; [| f_equal; [| f_equal]]];
      Z.to_euclidean_division_equations; lia.
Qed.

Lemma sextetsToBytes_range (sextets : list Z) :
  Forall isSextet sextets -> Forall isByte (sextetsToBytes sextets).
Proof.
  induction sextets as [| p | p q | p q r | p q r s rest IH] using list_ind_by4;
    intros H; bytes_hyps; cbn [sextetsToBytes]; try constructor.
  - rewrite byte1_arith by assumption.
    unfold isSextet, isByte in *; Z.to_euclidean_division_equations; lia.
  - constructor.
  - rewrite byte1_arith by assumption.
    unfold isSextet, isByte in *; Z.to_euclidean_division_equations; lia.
  - constructor; [| constructor]. rewrite byte2_arith by assumption.
    unfold isSextet, isByte in *; Z.to_euclidean_division_equations; lia.
  - rewrite byte1_arith by assumption.
    unfold isSextet, isByte in *; Z.to_euclidean_division_equations; lia.
  - constructor; [| constructor; [| now apply IH]].
    + rewrite byte2_arith by assumption.
      unfold isSextet, isByte in *; Z.to_euclidean_division_equations; lia.
    + rewrite byte3_arith by assumption.
      unfold isSextet, isByte in *; Z.to_euclidean_division_equations; lia.
Qed.

End SextetFacts.

(** ** The Base64URL codec *)

Section CodecFacts.
Import Runtime Base64URL.

Local Abbreviation toUrl c := (replaceChar "/" "_" (replaceChar "+" "-" c)).
Local Abbreviation fromUrl c := (replaceChar "_" "/" (replaceChar "-" "+" c)).

Lemma sextet_cases (P : Z -> Prop) :
  (forall n, (n < 64)%nat -> P (Z.of_nat n)) -> forall i, isSextet i -> P i.
Proof.
  intros H i [Hlo Hhi]. rewrite <- (Z2Nat.id i) by assumption. apply H. lia.
Qed.

(** Digit [i] in the URL-safe alphabet: what it is read back as. *)
Lemma urlChar_facts (i : Z) :
  isSextet i ->
  b64index (toUrl (b64char i)) = Some i
  /\ isBase64URLChar (toUrl (b64char i)) = true
  /\ Ascii.eqb (toUrl (b64char i)) "=" = false.
Proof.
  revert i. apply sextet_cases. intros n Hn.
  do 64 (destruct n as [| n]; [vm_compute; auto |]). lia.
Qed.

(** A character of the URL-safe alphabet: its digit, and what the decoder's
    substitutions make of it. *)
Lemma urlDigit_facts (c : ascii) :
  isBase64URLChar c = true ->
  exists i, isSextet i
            /\ b64index c = Some i
            /\ b64index (fromUrl c) = Some i
            /\ Ascii.eqb (fromUrl c) "=" = false
            /\ Ascii.eqb c "=" = false
            /\ toUrl (b64char i) = c.
Proof.
  intros H.
  exists (match b64index c with Some i => i | None => 0 end).
  destruct c as [[] [] [] [] [] [] [] []];
    vm_compute in H; try discriminate H; clear H;
    vm_compute; repeat split; try reflexivity; intros H; discriminate H.
Qed.

Lemma list_ascii_of_string_app (s1 s2 : string) :
  list_ascii_of_string (s1 ++ s2)
  = (list_ascii_of_string s1 ++ list_ascii_of_string s2)%list.
Proof. induction s1 as [| c s1 IH]; cbn; [reflexivity | now rewrite IH]. Qed.

Lemma length_list_ascii_of_string (s : string) :
  List.length (list_ascii_of_string s) = String.length s.
Proof. induction s as [| c s IH]; cbn; [reflexivity | now rewrite IH]. Qed.

Lemma filter_keeps_all {A : Type} (f : A -> bool) (l : list A) :
  Forall (fun x => f x = true) l -> filter f l = l.
Proof.
  induction 1 as [| x l Hx _ IH]; cbn; [reflexivity | now rewrite Hx, IH].
Qed.

Lemma filter_repeat_out {A : Type} (f : A -> bool) (x : A) (n : nat) :
  f x = false -> filter f (repeat x n) = [].
Proof. intros Hx. induction n as [| n IH]; cbn; [reflexivity | now rewrite Hx]. Qed.

Lemma upToPad_padded (cs : list ascii) (n : nat) :
  Forall (fun c => Ascii.eqb c "=" = false) cs ->
  upToPad (cs ++ repeat "="%char n) = cs.
Proof.
  induction 1 as [| c cs Hc _ IH]; cbn [app upToPad].
  - destruct n; reflexivity.
  - now rewrite Hc, IH.
Qed.

Lemma digits_urlChars (sextets : list Z) :
  Forall isSextet sextets ->
  digits (map (fun i => toUrl (b64char i)) sextets) = sextets.
Proof.
  induction 1 as [| i l Hi _ IH]; cbn [map digits]; [reflexivity |].
  destruct (urlChar_facts i Hi) as (-> & _). now rewrite IH.
Qed.

(** On a text of the URL-safe alphabet: every character is a digit, the
    decoder's substitutions do not change the digits, and the digits spell
    the text. *)
Lemma digits_of_url_text (cs : list ascii) :
  forallb isBase64URLChar cs = true ->
  Forall isSextet (digits cs)
  /\ digits (map (fun c => fromUrl c) cs) = digits cs
  /\ Forall (fun c => Ascii.eqb c "=" = false) (map (fun c => fromUrl c) cs)
  /\ map (fun i => toUrl (b64char i)) (digits cs) = cs
  /\ List.length (digits cs) = List.length cs.
Proof.
  induction cs as [| c cs IH]; cbn [forallb map digits List.length].
  - intros _. repeat split; constructor.
  - intros H. apply andb_prop in H as [Hc Hcs].
    destruct (IH Hcs) as (H1 & H2 & H3 & H4 & H5).
    destruct (urlDigit_facts c Hc) as (i & Hi & Hd & Hd' & Hne & _ & Hback).
    rewrite Hd, Hd'. cbn [map List.length].
    repeat split.
    + now constructor.
    + now rewrite H2.
    + now constructor.
    + now rewrite Hback, H4.
    + now rewrite H5.
Qed.

(** [encodeBase64URL] is the URL-safe spelling of the sextets of the bytes. *)
Lemma encodeBase64URL_sextets (bytes : list Z) :
  Forall isByte bytes ->
  encodeBase64URL (JsBuffer bytes)
  = Return (string_of_list_ascii
              (map (fun i => toUrl (b64char i)) (bytesToSextets bytes))).
Proof.
  intros Hb. unfold encodeBase64URL.
  destruct bytes as [| b0 bytes]; [reflexivity |].
  cbn [List.length Nat.eqb].
  unfold removeAll, replaceAll, toBase64.
  rewrite !list_ascii_of_string_of_list_ascii.
  rewrite !map_app, !map_map, filter_app.
  unfold padding. rewrite !map_repeat.
  rewrite filter_repeat_out by reflexivity.
  rewrite app_nil_r. rewrite filter_keeps_all; [reflexivity |].
  apply Forall_map. eapply Forall_impl; [| apply bytesToSextets_range; exact Hb].
  intros i Hi. cbv beta.
  destruct (urlChar_facts i Hi) as (_ & _ & ->). reflexivity.
Qed.

(** [decodeBase64URL] reads the digits of a text of the URL-safe alphabet. *)
Lemma decodeBase64URL_digits (text : string) :
  matchesBase64URL text = true ->
  decodeBase64URL (JsString text)
  = Return (sextetsToBytes (digits (list_ascii_of_string text))).
Proof.
  intros Hm. unfold decodeBase64URL.
  destruct (String.length text =? 0)%nat eqn:Hlen.
  - destruct text; [reflexivity | discriminate].
  - rewrite Hm. cbn [negb]. f_equal.
    unfold fromBase64, replaceAll, padEnd.
    rewrite !list_ascii_of_string_of_list_ascii.
    rewrite list_ascii_of_string_app, list_ascii_of_string_of_list_ascii.
    rewrite map_map, map_app, map_repeat.
    change (fromUrl "="%char) with "="%char.
    destruct (digits_of_url_text _ Hm) as (_ & Hd & Hne & _).
    rewrite upToPad_padded by exact Hne.
    now rewrite Hd.
Qed.

Lemma matchesBase64URL_encoded (sextets : list Z) :
  Forall isSextet sextets ->
  matchesBase64URL
    (string_of_list_ascii (map (fun i => toUrl (b64char i)) sextets)) = true.
Proof.
  intros H. unfold matchesBase64URL.
  rewrite list_ascii_of_string_of_list_ascii.
  apply forallb_forall. intros c Hc. apply in_map_iff in Hc as (i & <- & Hi).
  rewrite Forall_forall in H. now destruct (urlChar_facts i (H i Hi)) as (_ & -> & _).
Qed.

(** Round trip from bytes, for a byte string of any length. *)
Lemma decode_encode_bytes (bytes : list Z) :
  Forall isByte bytes ->
  exists text,
    encodeBase64URL (JsBuffer bytes) = Return text
    /\ decodeBase64URL (JsString text) = Return bytes
    /\ String.length text = List.length (bytesToSextets bytes).
Proof.
  intros Hb. eexists. split; [now apply encodeBase64URL_sextets |].
  pose proof (bytesToSextets_range bytes Hb) as Hs.
  split.
  - rewrite decodeBase64URL_digits by now apply matchesBase64URL_encoded.
    rewrite list_ascii_of_string_of_list_ascii, digits_urlChars by assumption.
    now rewrite sextetsToBytes_bytesToSextets.
  - rewrite <- length_list_ascii_of_string, list_ascii_of_string_of_list_ascii.
    apply length_map.
Qed.

(** Round trip from text, for a canonical text of the URL-safe alphabet. *)
Lemma encode_decode_text (text : string) :
  matchesBase64URL text = true -> canonicalText text = true ->
  exists bytes,
    decodeBase64URL (JsString text) = Return bytes
    /\ Forall isByte bytes
    /\ encodeBase64URL (JsBuffer bytes) = Return text.
Proof.
  intros Hm Hc. eexists. split; [now apply decodeBase64URL_digits |].
  destruct (digits_of_url_text _ Hm) as (Hs & _ & _ & Hback & _).
  pose proof (sextetsToBytes_range _ Hs) as Hb.
  split; [exact Hb |].
  rewrite encodeBase64URL_sextets by exact Hb.
  rewrite bytesToSextets_sextetsToBytes by assumption.
  now rewrite Hback, string_of_list_ascii_of_string.
Qed.

End CodecFacts.

(** ** More on the 48-bit generator *)

Section More48.
Import Timestamp.

(** Whatever the readings and the strategy, the timestamps of the buffers a
    run of calls on one generator returns never decrease; they lie between
    the generator's [lastSystemTime] before and after the run, and the
    generator stays well formed. *)
Theorem generateTimes_monotonic (n : nat) (g : UUID48Timestamp) (clock : list Z) :
  wellFormed g ->
  let '(rs, g', _) := generateTimes n g clock in
  StronglySorted Z.le (emittedTimestamps rs)
  /\ Forall (fun t => lastSystemTime g <= t <= lastSystemTime g') (emittedTimestamps rs)
  /\ lastSystemTime g <= lastSystemTime g'
  /\ wellFormed g'.
Proof.
  revert g clock. induction n as [| n IH]; intros g clock Hwf; cbn [generateTimes].
  - cbn. repeat split; try constructor; try lia; apply Hwf.
  - pose proof (generate_callPost g clock) as Hpost.
    destruct (generate g clock) as [[r g1] clock1] eqn:Hgen.
    pose proof (generate_wellFormed g g1 clock clock1 r Hwf Hgen) as Hwf1.
    specialize (IH g1 clock1 Hwf1).
    destruct (generateTimes n g1 clock1) as [[rs g'] clock'].
    destruct IH as (Hsorted & Hbounds & Hle & Hwf').
    destruct Hpost as (_ & _ & Hmono & _ & Hr).
    assert (Hrest : Forall (fun t => lastSystemTime g <= t <= lastSystemTime g')
                           (emittedTimestamps rs)).
    { eapply Forall_impl; [| exact Hbounds]. cbv beta. intros t Ht. lia. }
    split; [| split; [| split; [lia | exact Hwf']]].
    + destruct r as [buf | message |]; cbn [emittedTimestamps flat_map app];
        try exact Hsorted.
      destruct Hr as [Hr | Hr]; [discriminate |].
      destruct (timestampOf_emitted (lastSystemTime g1) buf) as (_ & Ht & _);
        [apply Hwf1 | now symmetry |].
      constructor; [exact Hsorted |].
      eapply Forall_impl; [| exact Hbounds]. cbv beta. intros t Hb. lia.
    + destruct r as [buf | message |]; cbn [emittedTimestamps flat_map app];
        try exact Hrest.
      destruct Hr as [Hr | Hr]; [discriminate |].
      destruct (timestampOf_emitted (lastSystemTime g1) buf) as (_ & Ht & _);
        [apply Hwf1 | now symmetry |].
      constructor; [lia | exact Hrest].
Qed.

Lemma generateTimes_monotonic_witness :
  let '(rs, g', _) :=
    generateTimes 4 (mkGen 0 0 2 Increment) [1700000000000; 1700000000000; 3; 1700000000000] in
  StronglySorted Z.le (emittedTimestamps rs)
  /\ Forall (fun t => 0 <= t <= lastSystemTime g') (emittedTimestamps rs)
  /\ 0 <= lastSystemTime g'
  /\ wellFormed g'.
Proof.
  apply (generateTimes_monotonic 4 (mkGen 0 0 2 Increment)
           [1700000000000; 1700000000000; 3; 1700000000000]).
  unfold wellFormed. cbn. lia.
Defined.

(** The constructor hands out fresh, well-formed generators only: it throws
    when [maxSubMs] is negative or above 65536.  A [maxSubMs] of 0 is not
    rejected: being falsy it is replaced by the default 4096. *)
Theorem constructor_validates (options : Options) :
  (forall g, constructor options = Return g ->
             wellFormed g /\ lastSystemTime g = 0 /\ subMillisecondCounter g = 0
             /\ maxSubMs g = orDefaultZ (opt_maxSubMs options) 4096)
  /\ (forall n, opt_maxSubMs options = Some n -> n < 0 \/ 65536 < n ->
                constructor options
                = Throw ("maxSubMs must be between 1 and 65536, got " ++ showZ n))
  /\ (opt_maxSubMs options = Some 0 -> opt_waitStrategy options = None ->
      constructor options = Return (mkGen 0 0 4096 Increment)).
Proof.
  split; [| split].
  - intros g Hg. destruct (constructor_wellFormed options g Hg) as (Hwf & Hl & Hc).
    repeat split; try assumption; try apply Hwf.
    unfold constructor in Hg.
    destruct ((orDefaultZ (opt_maxSubMs options) 4096 <=? 0)
              || (orDefaultZ (opt_maxSubMs options) 4096 >? 65536)); [discriminate |].
    destruct (String.eqb _ "increment");
      [| destruct (String.eqb _ "wait"); [| discriminate]];
      apply Return_inj in Hg; subst g; reflexivity.
  - intros n Hn Hrange. unfold constructor. rewrite Hn. unfold orDefaultZ.
    destruct (n =? 0) eqn:E0; [apply Z.eqb_eq in E0; lia |].
    destruct ((n <=? 0) || (n >? 65536)) eqn:E; [reflexivity |].
    apply orb_false_elim in E as [Hlo Hhi].
    apply Z.leb_gt in Hlo. rewrite Z.gtb_ltb in Hhi. apply Z.ltb_ge in Hhi. lia.
  - intros Hn Hs. unfold constructor. rewrite Hn, Hs. reflexivity.
Qed.

Lemma bufferToTimestamp_of_timestampToBuffer (ts : Z) :
  0 <= ts <= maxValue ->
  exists buf,
    _timestampToBuffer ts = Return buf
    /\ Forall isByte buf
    /\ validateBuffer (JsBuffer buf) = true
    /\ bufferToTimestamp (JsBuffer buf) = Return ts.
Proof.
  intros Hts. rewrite _timestampToBuffer_in_range by lia.
  eexists. split; [reflexivity |].
  assert (Hv : readBigEndian48
                 (Z.land (Z.shiftr ts 40) 255) (Z.land (Z.shiftr ts 32) 255)
                 (Z.land (Z.shiftr ts 24) 255) (Z.land (Z.shiftr ts 16) 255)
                 (Z.land (Z.shiftr ts 8) 255) (Z.land ts 255) = ts)
    by now apply readBigEndian48_of_timestamp.
  split; [| split].
  - repeat constructor; apply byte_of_range.
  - unfold validateBuffer. rewrite Hv. apply Z.leb_le. apply Hts.
  - unfold bufferToTimestamp, validateBuffer. rewrite Hv.
    replace (ts <=? 281474976710655) with true
      by (symmetry; apply Z.leb_le; apply Hts).
    reflexivity.
Qed.

(** The six bytes written for a timestamp within 48 bits pass
    [validateBuffer] and read back as that timestamp. *)
Theorem timestamp_buffer_round_trip (ts : Z) :
  0 <= ts <= maxValue ->
  exists buf,
    _timestampToBuffer ts = Return buf
    /\ Forall isByte buf
    /\ validateBuffer (JsBuffer buf) = true
    /\ bufferToTimestamp (JsBuffer buf) = Return ts.
Proof. exact (bufferToTimestamp_of_timestampToBuffer ts). Qed.

Lemma timestamp_buffer_round_trip_witness :
  exists buf,
    _timestampToBuffer 1700000000000 = Return buf
    /\ Forall isByte buf
    /\ validateBuffer (JsBuffer buf) = true
    /\ bufferToTimestamp (JsBuffer buf) = Return 1700000000000.
Proof.
  apply (timestamp_buffer_round_trip 1700000000000).
  unfold maxValue. lia.
Defined.

Lemma readBigEndian48_range (b0 b1 b2 b3 b4 b5 : Z) :
  isByte b0 -> isByte b1 -> isByte b2 -> isByte b3 -> isByte b4 -> isByte b5 ->
  0 <= readBigEndian48 b0 b1 b2 b3 b4 b5 <= maxValue.
Proof.
  unfold isByte, maxValue. intros.
  rewrite readBigEndian48_bytes by assumption.
  change (2 ^ 40) with 1099511627776. change (2 ^ 32) with 4294967296.
  change (2 ^ 24) with 16777216. change (2 ^ 16) with 65536. change (2 ^ 8) with 256.
  lia.
Qed.

Lemma timestampToBuffer_of_bufferToTimestamp (b0 b1 b2 b3 b4 b5 : Z) :
  isByte b0 -> isByte b1 -> isByte b2 -> isByte b3 -> isByte b4 -> isByte b5 ->
  exists ts,
    bufferToTimestamp (JsBuffer [b0; b1; b2; b3; b4; b5]) = Return ts
    /\ 0 <= ts <= maxValue
    /\ _timestampToBuffer ts = Return [b0; b1; b2; b3; b4; b5].
Proof.
  intros H0 H1 H2 H3 H4 H5.
  pose proof (readBigEndian48_range b0 b1 b2 b3 b4 b5 H0 H1 H2 H3 H4 H5) as Hr.
  exists (readBigEndian48 b0 b1 b2 b3 b4 b5).
  split; [| split; [exact Hr |]].
  - unfold bufferToTimestamp, validateBuffer.
    replace (readBigEndian48 b0 b1 b2 b3 b4 b5 <=? 281474976710655) with true
      by (symmetry; apply Z.leb_le; apply Hr).
    reflexivity.
  - rewrite _timestampToBuffer_in_range by apply Hr.
    rewrite readBigEndian48_bytes by assumption.
    unfold isByte in *. rewrite !land_255, !Z.shiftr_div_pow2 by lia.
    change (2 ^ 40) with 1099511627776. change (2 ^ 32) with 4294967296.
    change (2 ^ 24) with 16777216. change (2 ^ 16) with 65536. change (2 ^ 8) with 256.
    f_equal. repeat (apply f_equal2); try reflexivity;
      Z.to_euclidean_division_equations; lia.
Qed.

(** Six bytes read as a timestamp within 48 bits, and writing that timestamp
    gives the six bytes back. *)
Theorem buffer_timestamp_round_trip (b0 b1 b2 b3 b4 b5 : Z) :
  isByte b0 -> isByte b1 -> isByte b2 -> isByte b3 -> isByte b4 -> isByte b5 ->
  exists ts,
    bufferToTimestamp (JsBuffer [b0; b1; b2; b3; b4; b5]) = Return ts
    /\ 0 <= ts <= maxValue
    /\ _timestampToBuffer ts = Return [b0; b1; b2; b3; b4; b5].
Proof. exact (timestampToBuffer_of_bufferToTimestamp b0 b1 b2 b3 b4 b5). Qed.

Lemma buffer_timestamp_round_trip_witness :
  exists ts,
    bufferToTimestamp (JsBuffer [1; 2; 3; 4; 5; 6]) = Return ts
    /\ 0 <= ts <= maxValue
    /\ _timestampToBuffer ts = Return [1; 2; 3; 4; 5; 6].
Proof.
  apply (buffer_timestamp_round_trip 1 2 3 4 5 6); unfold isByte; lia.
Defined.

(** [validateBuffer] accepts exactly the Buffers of six bytes: its range
    test cannot fail on bytes, and anything that is not a Buffer is
    rejected. *)
Theorem validateBuffer_iff_six_bytes (v : JsValue) :
  (forall b, v = JsBuffer b -> Forall isByte b) ->
  validateBuffer v = true <-> exists b, v = JsBuffer b /\ List.length b = 6%nat.
Proof.
  intros Hbytes. split.
  - destruct v as [| | n | s | b]; try discriminate.
    destruct b as [| b0 [| b1 [| b2 [| b3 [| b4 [| b5 [| b6 rest]]]]]]];
      try discriminate.
    intros _. eexists. split; reflexivity.
  - intros (b & -> & Hlen).
    destruct b as [| b0 [| b1 [| b2 [| b3 [| b4 [| b5 [| b6 rest]]]]]]];
      try discriminate Hlen.
    specialize (Hbytes _ eq_refl).
    inversion Hbytes as [| ? ? H0 Hb1]; subst.
    inversion Hb1 as [| ? ? H1 Hb2]; subst.
    inversion Hb2 as [| ? ? H2 Hb3]; subst.
    inversion Hb3 as [| ? ? H3 Hb4]; subst.
    inversion Hb4 as [| ? ? H4 Hb5]; subst.
    inversion Hb5 as [| ? ? H5 _]; subst.
    unfold validateBuffer. apply Z.leb_le.
    apply (readBigEndian48_range b0 b1 b2 b3 b4 b5); assumption.
Qed.

Lemma validateBuffer_iff_six_bytes_witness :
  validateBuffer (JsBuffer [255; 255; 255; 255; 255; 255]) = true
  <-> exists b, JsBuffer [255; 255; 255; 255; 255; 255] = JsBuffer b
                /\ List.length b = 6%nat.
Proof.
  apply (validateBuffer_iff_six_bytes (JsBuffer [255; 255; 255; 255; 255; 255])).
  intros b Hb. injection Hb as <-. repeat constructor; unfold isByte; lia.
Defined.

Lemma _waitForNextMillisecond_same_readings
      (gen : list Z -> Outcome) (g : UUID48Timestamp) (clock : list Z) :
  Forall (fun t => t = lastSystemTime g) clock ->
  _waitForNextMillisecond gen g clock = (Blocked, g, []).
Proof.
  induction 1 as [| t clock Ht _ IH]; cbn [_waitForNextMillisecond]; [reflexivity |].
  subst t. now rewrite Z.eqb_refl.
Qed.

(** Under the [Wait] strategy a call that overflows the counter does not
    return while the clock stays on the generator's millisecond; when it
    returns, it is with a strictly later timestamp and a reset counter. *)
Theorem generate_wait_strategy (g : UUID48Timestamp) (clock : list Z) :
  waitStrategy g = Wait ->
  maxSubMs g <= subMillisecondCounter g + 1 ->
  let '(r, g', _) := generate g (lastSystemTime g :: clock) in
  (Forall (fun t => t = lastSystemTime g) clock -> r = Blocked)
  /\ (r <> Blocked ->
      lastSystemTime g < lastSystemTime g' /\ subMillisecondCounter g' = 0
      /\ r = _timestampToBuffer (lastSystemTime g')).
Proof.
  intros Hs Hov.
  pose proof (generate_callPost g (lastSystemTime g :: clock)) as Hpost.
  rewrite generate_overflow_wait in * by assumption. cbv zeta in *.
  set (g1 := mkGen _ _ _ _) in *.
  assert (Hw : waiting g1) by (split; cbn; [reflexivity | lia]).
  destruct (generate_and_wait_waitPost clock g1 Hw) as [_ Hwait].
  pose proof (_waitForNextMillisecond_same_readings (generate g1) g1 clock) as Hsame.
  destruct (_waitForNextMillisecond (generate g1) g1 clock) as [[r g'] rest].
  split.
  - intros Hall. specialize (Hsame Hall). congruence.
  - intros Hr. destruct Hwait as [(Hb & _) | (_ & H0 & Hlt)]; [contradiction |].
    destruct Hpost as (_ & _ & _ & _ & [Hb | Hout]); [contradiction |].
    cbn in Hlt. auto.
Qed.

Lemma generate_wait_strategy_witness :
  let '(r, g', _) := generate (mkGen 5 4095 4096 Wait) (5 :: [5; 5; 6; 7]) in
  (Forall (fun t => t = 5) [5; 5; 6; 7] -> r = Blocked)
  /\ (r <> Blocked ->
      5 < lastSystemTime g' /\ subMillisecondCounter g' = 0
      /\ r = _timestampToBuffer (lastSystemTime g')).
Proof.
  apply (generate_wait_strategy (mkGen 5 4095 4096 Wait) [5; 5; 6; 7]).
  - reflexivity.
  - cbn. lia.
Defined.

End More48.

(** ** More on the Base64URL codec *)

Section MoreCodec.
Import Runtime Base64URL.

Lemma bytesToSextets_count (bytes : list Z) :
  List.length (bytesToSextets bytes) = ((4 * List.length bytes + 2) / 3)%nat.
Proof.
  induction bytes as [| a | a b | a b c rest IH] using list_ind_by3;
    cbn [bytesToSextets List.length]; try reflexivity.
  rewrite IH.
  replace (4 * S (S (S (List.length rest))) + 2)%nat
    with ((4 * List.length rest + 2) + 4 * 3)%nat by lia.
  rewrite Nat.div_add by lia. lia.
Qed.

Lemma sextetsToBytes_count (sextets : list Z) :
  List.length (sextetsToBytes sextets) = (3 * List.length sextets / 4)%nat.
Proof.
  induction sextets as [| p | p q | p q r | p q r s rest IH] using list_ind_by4;
    cbn [sextetsToBytes List.length]; try reflexivity.
  rewrite IH.
  replace (3 * S (S (S (S (List.length rest)))))%nat
    with (3 * List.length rest + 3 * 4)%nat by lia.
  rewrite Nat.div_add by lia. lia.
Qed.

Lemma decodeBase64URL_encodeBase64URL (bytes : list Z) :
  Forall isByte bytes ->
  exists text,
    encodeBase64URL (JsBuffer bytes) = Return text
    /\ String.length text = ((4 * List.length bytes + 2) / 3)%nat
    /\ matchesBase64URL text = true
    /\ decodeBase64URL (JsString text) = Return bytes.
Proof.
  intros Hb.
  destruct (decode_encode_bytes bytes Hb) as (text & He & Hd & Hl).
  exists text. repeat split; try assumption.
  - now rewrite Hl, bytesToSextets_count.
  - rewrite encodeBase64URL_sextets in He by assumption.
    apply Return_inj in He. subst text.
    apply matchesBase64URL_encoded. now apply bytesToSextets_range.
Qed.

(** Encoding then decoding gives the bytes back, for a byte string of any
    length; the text has ceil(4n/3) characters, all of the URL-safe alphabet,
    so it holds no [+], [/] or [=]. *)
Theorem base64url_bytes_round_trip (bytes : list Z) :
  Forall isByte bytes ->
  exists text,
    encodeBase64URL (JsBuffer bytes) = Return text
    /\ String.length text = ((4 * List.length bytes + 2) / 3)%nat
    /\ matchesBase64URL text = true
    /\ decodeBase64URL (JsString text) = Return bytes.
Proof. exact (decodeBase64URL_encodeBase64URL bytes). Qed.

Lemma base64url_bytes_round_trip_witness :
  exists text,
    encodeBase64URL (JsBuffer [255; 254; 253; 0]) = Return text
    /\ String.length text = ((4 * 4 + 2) / 3)%nat
    /\ matchesBase64URL text = true
    /\ decodeBase64URL (JsString text) = Return [255; 254; 253; 0].
Proof.
  apply (base64url_bytes_round_trip [255; 254; 253; 0]).
  repeat constructor; unfold isByte; lia.
Defined.

Lemma decodeBase64URL_total (text : string) :
  (matchesBase64URL text = true ->
   exists bytes, decodeBase64URL (JsString text) = Return bytes
                 /\ Forall isByte bytes
                 /\ List.length bytes = (3 * String.length text / 4)%nat)
  /\ (matchesBase64URL text = false ->
      decodeBase64URL (JsString text)
      = Throw "Invalid Base64URL string: contains invalid characters")
  /\ (In "="%char (list_ascii_of_string text) -> matchesBase64URL text = false).
Proof.
  split; [| split].
  - intros Hm. eexists. split; [now apply decodeBase64URL_digits |].
    destruct (digits_of_url_text _ Hm) as (Hs & _ & _ & _ & Hlen).
    split; [now apply sextetsToBytes_range |].
    now rewrite sextetsToBytes_count, Hlen, length_list_ascii_of_string.
  - intros Hm. unfold decodeBase64URL.
    destruct text as [| c text]; [discriminate Hm |].
    cbn [String.length Nat.eqb]. now rewrite Hm.
  - intros Hin. unfold matchesBase64URL.
    destruct (forallb isBase64URLChar (list_ascii_of_string text)) eqn:E; [| reflexivity].
    rewrite forallb_forall in E. specialize (E _ Hin). discriminate E.
Qed.

(** [decodeBase64URL] on a string: a text of the URL-safe alphabet always
    decodes, to floor(3n/4) bytes; any other text is rejected with the
    invalid-characters error.  Padding is rejected too. *)
Theorem decodeBase64URL_accepts_alphabet (text : string) :
  (matchesBase64URL text = true ->
   exists bytes, decodeBase64URL (JsString text) = Return bytes
                 /\ Forall isByte bytes
                 /\ List.length bytes = (3 * String.length text / 4)%nat)
  /\ (matchesBase64URL text = false ->
      decodeBase64URL (JsString text)
      = Throw "Invalid Base64URL string: contains invalid characters")
  /\ (In "="%char (list_ascii_of_string text) -> matchesBase64URL text = false).
Proof. exact (decodeBase64URL_total text). Qed.

Lemma decodeBase64URL_accepts_alphabet_witness :
  (matchesBase64URL "A_-z" = true ->
   exists bytes, decodeBase64URL (JsString "A_-z") = Return bytes
                 /\ Forall isByte bytes
                 /\ List.length bytes = (3 * String.length "A_-z" / 4)%nat)
  /\ (matchesBase64URL "A_-z" = false ->
      decodeBase64URL (JsString "A_-z")
      = Throw "Invalid Base64URL string: contains invalid characters")
  /\ (In "="%char (list_ascii_of_string "A_-z") -> matchesBase64URL "A_-z" = false).
Proof. apply (decodeBase64URL_accepts_alphabet "A_-z"). Defined.

Lemma no_pad_in_url_text (cs : list ascii) :
  forallb isBase64URLChar cs = true -> existsb (Ascii.eqb "=") cs = false.
Proof.
  induction cs as [| c cs IH]; cbn [forallb existsb]; [reflexivity |].
  intros H. apply andb_prop in H as [Hc Hcs]. rewrite (IH Hcs), orb_false_r.
  destruct (urlDigit_facts c Hc) as (_ & _ & _ & _ & _ & Hne & _).
  now rewrite Ascii.eqb_sym.
Qed.

Lemma isValidBase64URL_iff_alphabet (v : JsValue) :
  isValidBase64URL v = true
  <-> exists s, v = JsString s /\ matchesBase64URL s = true.
Proof.
  split.
  - destruct v as [| | n | s | b]; try discriminate.
    intros H. exists s. split; [reflexivity |].
    unfold isValidBase64URL in H.
    destruct (String.length s =? 0)%nat eqn:Hlen.
    + destruct s; [reflexivity | discriminate].
    + destruct (matchesBase64URL s); [reflexivity | discriminate].
  - intros (s & -> & Hm). unfold isValidBase64URL.
    destruct (String.length s =? 0)%nat; [reflexivity |].
    rewrite Hm. cbn [negb].
    rewrite (no_pad_in_url_text _ Hm).
    now rewrite decodeBase64URL_digits.
Qed.

(** [isValidBase64URL] accepts exactly the strings over the URL-safe
    alphabet (the empty string too): its test for padding and its trial
    decoding never reject a string that passed the character test. *)
Theorem isValidBase64URL_accepts_alphabet (v : JsValue) :
  isValidBase64URL v = true
  <-> exists s, v = JsString s /\ matchesBase64URL s = true.
Proof. exact (isValidBase64URL_iff_alphabet v). Qed.

Lemma canonicalSextets_multiple_of_4 (sextets : list Z) :
  (List.length sextets mod 4 = 0)%nat -> canonicalSextets sextets = true.
Proof.
  induction sextets as [| p | p q | p q r | p q r s rest IH] using list_ind_by4;
    cbn [List.length canonicalSextets]; try reflexivity; try discriminate.
  intros H. apply IH.
  replace (S (S (S (S (List.length rest))))) with (List.length rest + 1 * 4)%nat in H by lia.
  now rewrite Nat.Div0.mod_add in H.
Qed.

Lemma isValidTimestampBase64URL_iff (v : JsValue) :
  isValidTimestampBase64URL v = true
  <-> exists s, v = JsString s /\ String.length s = 8%nat
                /\ matchesBase64URL s = true.
Proof.
  unfold isValidTimestampBase64URL. split.
  - destruct (isValidBase64URL v) eqn:Hv; [| discriminate].
    apply isValidBase64URL_iff_alphabet in Hv as (s & -> & Hm).
    cbn [negb orb lengthOf].
    destruct (String.length s =? 8)%nat eqn:Hlen; [| discriminate].
    intros _. exists s. apply Nat.eqb_eq in Hlen. auto.
  - intros (s & -> & Hlen & Hm).
    assert (Hv : isValidBase64URL (JsString s) = true)
      by (apply isValidBase64URL_iff_alphabet; eauto).
    rewrite Hv. cbn [negb orb lengthOf]. rewrite Hlen. cbn [Nat.eqb negb].
    rewrite decodeBase64URL_digits by assumption.
    destruct (digits_of_url_text _ Hm) as (_ & _ & _ & _ & Hd).
    rewrite sextetsToBytes_count, Hd, length_list_ascii_of_string, Hlen. reflexivity.
Qed.

(** [isValidTimestampBase64URL] accepts exactly the 8-character strings over
    the URL-safe alphabet; every one of them decodes to 6 bytes. *)
Theorem isValidTimestampBase64URL_accepts_8_chars (v : JsValue) :
  isValidTimestampBase64URL v = true
  <-> exists s, v = JsString s /\ String.length s = 8%nat
                /\ matchesBase64URL s = true.
Proof. exact (isValidTimestampBase64URL_iff v). Qed.

Lemma base64URLToTimestamp_timestampToBase64URL (bytes : list Z) :
  Forall isByte bytes -> List.length bytes = 6%nat ->
  exists text,
    timestampToBase64URL (JsBuffer bytes) = Return text
    /\ String.length text = 8%nat
    /\ isValidTimestampBase64URL (JsString text) = true
    /\ base64URLToTimestamp (JsString text) = Return bytes.
Proof.
  intros Hb Hlen.
  destruct (decodeBase64URL_encodeBase64URL bytes Hb) as (text & He & Hl & Hm & Hd).
  rewrite Hlen in Hl. change ((4 * 6 + 2) / 3)%nat with 8%nat in Hl.
  assert (Hv : isValidTimestampBase64URL (JsString text) = true)
    by (apply isValidTimestampBase64URL_iff; eauto).
  exists text. repeat split; try assumption.
  - unfold timestampToBase64URL. rewrite Hlen, He, Hl. reflexivity.
  - unfold base64URLToTimestamp. now rewrite Hv.
Qed.

(** The length-checked pair, from bytes: six bytes give an 8-character text
    that the validator accepts and that [base64URLToTimestamp] turns back
    into the six bytes. *)
Theorem timestamp_text_round_trip (bytes : list Z) :
  Forall isByte bytes -> List.length bytes = 6%nat ->
  exists text,
    timestampToBase64URL (JsBuffer bytes) = Return text
    /\ String.length text = 8%nat
    /\ isValidTimestampBase64URL (JsString text) = true
    /\ base64URLToTimestamp (JsString text) = Return bytes.
Proof. exact (base64URLToTimestamp_timestampToBase64URL bytes). Qed.

Lemma timestamp_text_round_trip_witness :
  exists text,
    timestampToBase64URL (JsBuffer [1; 2; 3; 4; 5; 6]) = Return text
    /\ String.length text = 8%nat
    /\ isValidTimestampBase64URL (JsString text) = true
    /\ base64URLToTimestamp (JsString text) = Return [1; 2; 3; 4; 5; 6].
Proof.
  apply (timestamp_text_round_trip [1; 2; 3; 4; 5; 6]).
  - repeat constructor; unfold isByte; lia.
  - reflexivity.
Defined.

Lemma timestampToBase64URL_base64URLToTimestamp (text : string) :
  isValidTimestampBase64URL (JsString text) = true ->
  exists bytes,
    base64URLToTimestamp (JsString text) = Return bytes
    /\ Forall isByte bytes /\ List.length bytes = 6%nat
    /\ timestampToBase64URL (JsBuffer bytes) = Return text.
Proof.
  intros Hv. pose proof Hv as Hv'.
  apply isValidTimestampBase64URL_iff in Hv' as (s & [= <-] & Hlen & Hm).
  assert (Hc : canonicalText text = true).
  { unfold canonicalText. apply canonicalSextets_multiple_of_4.
    destruct (digits_of_url_text _ Hm) as (_ & _ & _ & _ & ->).
    now rewrite length_list_ascii_of_string, Hlen. }
  destruct (encode_decode_text text Hm Hc) as (bytes & Hd & Hb & He).
  destruct (decodeBase64URL_total text) as (Htot & _).
  destruct (Htot Hm) as (bytes' & Hd' & _ & Hl).
  assert (bytes' = bytes) by congruence. subst bytes'.
  rewrite Hlen in Hl. change (3 * 8 / 4)%nat with 6%nat in Hl.
  exists bytes. repeat split; try assumption.
  - unfold base64URLToTimestamp. now rewrite Hv.
  - unfold timestampToBase64URL. rewrite Hl, He, Hlen. reflexivity.
Qed.

(** The length-checked pair, from text: a text the validator accepts gives
    six bytes that [timestampToBase64URL] turns back into the same text. *)
Theorem text_timestamp_round_trip (text : string) :
  isValidTimestampBase64URL (JsString text) = true ->
  exists bytes,
    base64URLToTimestamp (JsString text) = Return bytes
    /\ Forall isByte bytes /\ List.length bytes = 6%nat
    /\ timestampToBase64URL (JsBuffer bytes) = Return text.
Proof. exact (timestampToBase64URL_base64URLToTimestamp text). Qed.

Lemma text_timestamp_round_trip_witness :
  exists bytes,
    base64URLToTimestamp (JsString "AZjMtm5O") = Return bytes
    /\ Forall isByte bytes /\ List.length bytes = 6%nat
    /\ timestampToBase64URL (JsBuffer bytes) = Return "AZjMtm5O".
Proof.
  apply (text_timestamp_round_trip "AZjMtm5O"). reflexivity.
Defined.

End MoreCodec.

(** ** Round trip from text, up to the canonical form *)

Section RoundTripModuloCanonicalForm.
Import Runtime Base64URL.

Lemma clear_low_bits (x k : Z) :
  0 <= k -> Z.shiftl (Z.shiftr x k) k = 2 ^ k * (x / 2 ^ k).
Proof.
  intros Hk. rewrite Z.shiftl_mul_pow2, Z.shiftr_div_pow2 by assumption. lia.
Qed.

Lemma canonicalSextetsOf_range (sextets : list Z) :
  Forall isSextet sextets -> Forall isSextet (canonicalSextetsOf sextets).
Proof.
  induction sextets as [| p | p q | p q r | p q r s rest IH] using list_ind_by4;
    intros H; cbn [canonicalSextetsOf].
  - constructor.
  - constructor.
  - inversion H as [| ? ? Hp Hq]; subst. inversion Hq as [| ? ? Hq' _]; subst.
    constructor; [exact Hp |]. constructor; [| constructor].
    unfold isSextet in *. rewrite clear_low_bits by lia. change (2 ^ 4) with 16.
    Z.to_euclidean_division_equations; lia.
  - inversion H as [| ? ? Hp H1]; subst. inversion H1 as [| ? ? Hq H2]; subst.
    inversion H2 as [| ? ? Hr _]; subst.
    constructor; [exact Hp |]. constructor; [exact Hq |]. constructor; [| constructor].
    unfold isSextet in *. rewrite clear_low_bits by lia. change (2 ^ 2) with 4.
    Z.to_euclidean_division_equations; lia.
  - inversion H as [| ? ? Hp H1]; subst. inversion H1 as [| ? ? Hq H2]; subst.
    inversion H2 as [| ? ? Hr H3]; subst. inversion H3 as [| ? ? Hs H4]; subst.
    repeat (constructor; [assumption |]). now apply IH.
Qed.

(** The canonical form is canonical, and a canonical list is its own
    canonical form. *)
Lemma canonicalSextetsOf_canonical (sextets : list Z) :
  Forall isSextet sextets ->
  canonicalSextets (canonicalSextetsOf sextets) = true
  /\ (canonicalSextets sextets = true -> canonicalSextetsOf sextets = sextets).
Proof.
  induction sextets as [| p | p q | p q r | p q r s rest IH] using list_ind_by4;
    intros H; cbn [canonicalSextetsOf canonicalSextets].
  - split; reflexivity.
  - split; [reflexivity | discriminate].
  - inversion H as [| ? ? Hp Hq]; subst. inversion Hq as [| ? ? Hq' _]; subst.
    unfold isSextet in *. rewrite !land_15, clear_low_bits by lia. change (2 ^ 4) with 16.
    split.
    + apply Z.eqb_eq. Z.to_euclidean_division_equations; lia.
    + intros Hc. apply Z.eqb_eq in Hc. do 2 f_equal.
      Z.to_euclidean_division_equations; lia.
  - inversion H as [| ? ? Hp H1]; subst. inversion H1 as [| ? ? Hq H2]; subst.
    inversion H2 as [| ? ? Hr _]; subst.
    unfold isSextet in *. rewrite !land_3, clear_low_bits by lia. change (2 ^ 2) with 4.
    split.
    + apply Z.eqb_eq. Z.to_euclidean_division_equations; lia.
    + intros Hc. apply Z.eqb_eq in Hc. do 3 f_equal.
      Z.to_euclidean_division_equations; lia.
  - inversion H as [| ? ? Hp H1]; subst. inversion H1 as [| ? ? Hq H2]; subst.
    inversion H2 as [| ? ? Hr H3]; subst. inversion H3 as [| ? ? Hs H4]; subst.
    destruct (IH H4) as [IH1 IH2]. split; [exact IH1 |].
    intros Hc. now rewrite IH2.
Qed.

(** The decoder does not see the difference between a list of sextets and
    its canonical form. *)
Lemma sextetsToBytes_canonicalSextetsOf (sextets : list Z) :
  Forall isSextet sextets ->
  sextetsToBytes (canonicalSextetsOf sextets) = sextetsToBytes sextets.
Proof.
  induction sextets as [| p | p q | p q r | p q r s rest IH] using list_ind_by4;
    intros H; cbn [canonicalSextetsOf sextetsToBytes].
  - reflexivity.
  - reflexivity.
  - inversion H as [| ? ? Hp Hq]; subst. inversion Hq as [| ? ? Hq' _]; subst.
    assert (Hq2 : isSextet (Z.shiftl (Z.shiftr q 4) 4)).
    { unfold isSextet in *. rewrite clear_low_bits by lia. change (2 ^ 4) with 16.
      Z.to_euclidean_division_equations; lia. }
    rewrite !byte1_arith by assumption.
    unfold isSextet in *. rewrite clear_low_bits by lia. change (2 ^ 4) with 16.
    f_equal. Z.to_euclidean_division_equations; lia.
  - inversion H as [| ? ? Hp H1]; subst. inversion H1 as [| ? ? Hq H2]; subst.
    inversion H2 as [| ? ? Hr _]; subst.
    assert (Hr2 : isSextet (Z.shiftl (Z.shiftr r 2) 2)).
    { unfold isSextet in *. rewrite clear_low_bits by lia. change (2 ^ 2) with 4.
      Z.to_euclidean_division_equations; lia. }
    rewrite !byte1_arith, !byte2_arith by assumption.
    unfold isSextet in *. rewrite clear_low_bits by lia. change (2 ^ 2) with 4.
    f_equal. f_equal. Z.to_euclidean_division_equations; lia.
  - inversion H as [| ? ? Hp H1]; subst. inversion H1 as [| ? ? Hq H2]; subst.
    inversion H2 as [| ? ? Hr H3]; subst. inversion H3 as [| ? ? Hs H4]; subst.
    now rewrite IH.
Qed.

(** Encoding what a list of sextets decodes to gives its canonical form. *)
Lemma bytesToSextets_sextetsToBytes_canonical (sextets : list Z) :
  Forall isSextet sextets ->
  bytesToSextets (sextetsToBytes sextets) = canonicalSextetsOf sextets.
Proof.
  intros H.
  destruct (canonicalSextetsOf_canonical sextets H) as [Hc _].
  rewrite <- sextetsToBytes_canonicalSextetsOf by assumption.
  apply bytesToSextets_sextetsToBytes; [| exact Hc].
  now apply canonicalSextetsOf_range.
Qed.

(** A canonical text of the URL-safe alphabet is its own canonical form. *)
Lemma canonicalForm_of_canonical (text : string) :
  matchesBase64URL text = true -> canonicalText text = true ->
  canonicalForm text = text.
Proof.
  intros Hm Hc.
  destruct (digits_of_url_text _ Hm) as (Hsext & _ & _ & Hback & _).
  destruct (canonicalSextetsOf_canonical _ Hsext) as [_ Hfix].
  unfold canonicalText in Hc. unfold canonicalForm.
  rewrite (Hfix Hc), Hback. apply string_of_list_ascii_of_string.
Qed.

(** C5.  Six bytes encode to eight characters that decode to the same six
    bytes.  For every text the validator accepts, encoding what the text
    decodes to gives the canonical padding-free form of the text: a text the
    validator accepts too, canonical, its own canonical form, that decodes to
    the same bytes, and that is the text itself when the text is canonical,
    as every text whose length is a multiple of 4 is. *)
Theorem C5_round_trip_modulo_canonical_form (bytes : list Z) (text : string) :
  Forall isByte bytes -> List.length bytes = 6%nat ->
  isValidBase64URL (JsString text) = true ->
  (exists encoded,
      encodeBase64URL (JsBuffer bytes) = Return encoded
      /\ String.length encoded = 8%nat
      /\ decodeBase64URL (JsString encoded) = Return bytes)
  /\ (exists decoded,
         decodeBase64URL (JsString text) = Return decoded
         /\ encodeBase64URL (JsBuffer decoded) = Return (canonicalForm text)
         /\ decodeBase64URL (JsString (canonicalForm text)) = Return decoded
         /\ isValidBase64URL (JsString (canonicalForm text)) = true
         /\ canonicalText (canonicalForm text) = true
         /\ canonicalForm (canonicalForm text) = canonicalForm text
         /\ (canonicalText text = true -> canonicalForm text = text)
         /\ ((String.length text mod 4 = 0)%nat -> canonicalForm text = text)).
Proof.
  intros Hb Hlen Hvalid. split.
  - destruct (decode_encode_bytes bytes Hb) as (encoded & He & Hd & Hl).
    exists encoded. repeat split; try assumption.
    rewrite Hl.
    destruct bytes as [| b0 [| b1 [| b2 [| b3 [| b4 [| b5 [| b6 rest]]]]]]];
      try discriminate Hlen. reflexivity.
  - apply isValidBase64URL_iff_alphabet in Hvalid as (s & Hs & Hm).
    apply (f_equal (fun v => match v with JsString x => x | _ => text end)) in Hs.
    cbn beta iota in Hs. subst s.
    destruct (digits_of_url_text _ Hm) as (Hsext & _ & _ & Hback & Hcount).
    set (ds := digits (list_ascii_of_string text)) in *.
    pose proof (canonicalSextetsOf_range ds Hsext) as Hcan.
    destruct (canonicalSextetsOf_canonical ds Hsext) as [Hiscan Hfix].
    pose proof (sextetsToBytes_range ds Hsext) as Hbytes.
    assert (Hmc : matchesBase64URL (canonicalForm text) = true)
      by (apply matchesBase64URL_encoded; exact Hcan).
    assert (Hdc : digits (list_ascii_of_string (canonicalForm text))
                  = canonicalSextetsOf ds).
    { unfold canonicalForm. fold ds.
      rewrite list_ascii_of_string_of_list_ascii. now apply digits_urlChars. }
    assert (Hcc : canonicalText (canonicalForm text) = true)
      by (unfold canonicalText; now rewrite Hdc).
    pose proof (canonicalForm_of_canonical text Hm) as Hself.
    exists (sextetsToBytes ds).
    split; [now apply decodeBase64URL_digits |].
    split.
    { rewrite encodeBase64URL_sextets by exact Hbytes.
      rewrite bytesToSextets_sextetsToBytes_canonical by exact Hsext. reflexivity. }
    split.
    { rewrite decodeBase64URL_digits by exact Hmc.
      now rewrite Hdc, sextetsToBytes_canonicalSextetsOf. }
    split; [apply isValidBase64URL_iff_alphabet; eauto |].
    split; [exact Hcc |].
    split; [now apply canonicalForm_of_canonical |].
    split; [exact Hself |].
    intros Hmod. apply Hself. unfold canonicalText. fold ds.
    apply canonicalSextets_multiple_of_4.
    now rewrite Hcount, length_list_ascii_of_string.
Qed.

Lemma C5_round_trip_modulo_canonical_form_witness :
  (exists encoded,
      encodeBase64URL (JsBuffer [1; 2; 3; 4; 5; 6]) = Return encoded
      /\ String.length encoded = 8%nat
      /\ decodeBase64URL (JsString encoded) = Return [1; 2; 3; 4; 5; 6])
  /\ (exists decoded,
         decodeBase64URL (JsString "A_-z9B") = Return decoded
         /\ encodeBase64URL (JsBuffer decoded) = Return (canonicalForm "A_-z9B")
         /\ decodeBase64URL (JsString (canonicalForm "A_-z9B")) = Return decoded
         /\ isValidBase64URL (JsString (canonicalForm "A_-z9B")) = true
         /\ canonicalText (canonicalForm "A_-z9B") = true
         /\ canonicalForm (canonicalForm "A_-z9B") = canonicalForm "A_-z9B"
         /\ (canonicalText "A_-z9B" = true -> canonicalForm "A_-z9B" = "A_-z9B")
         /\ ((String.length "A_-z9B" mod 4 = 0)%nat -> canonicalForm "A_-z9B" = "A_-z9B")).
Proof.
  apply (C5_round_trip_modulo_canonical_form [1; 2; 3; 4; 5; 6] "A_-z9B").
  - repeat constructor; unfold isByte; lia.
  - reflexivity.
  - reflexivity.
Defined.

End RoundTripModuloCanonicalForm.

(** ** The hex codec *)

Section HexFacts.
Import Runtime.

Lemma hexval_hexchar (d : Z) :
  0 <= d < 16 ->
  hexval (hexchar d) = Some d.
Proof.
  intros [Hlo Hhi]. rewrite <- (Z2Nat.id d) by assumption.
  assert (Hn : (Z.to_nat d < 16)%nat) by lia.
  revert Hn. generalize (Z.to_nat d). intros n Hn.
  do 16 (destruct n as [| n]; [vm_compute; reflexivity |]). lia.
Qed.

Lemma nibbles_of_byte (b : Z) :
  isByte b ->
  0 <= Z.shiftr b 4 < 16 /\ 0 <= Z.land b 15 < 16
  /\ 16 * Z.shiftr b 4 + Z.land b 15 = b.
Proof.
  unfold isByte. intros Hb. rewrite land_15, Z.shiftr_div_pow2 by lia.
  change (2 ^ 4) with 16. Z.to_euclidean_division_equations; lia.
Qed.

Lemma hexPairs_toHex (bytes : list Z) :
  Forall isByte bytes ->
  hexPairs (flat_map (fun b => [hexchar (Z.shiftr b 4); hexchar (Z.land b 15)]) bytes)
  = bytes.
Proof.
  induction 1 as [| b bytes Hb _ IH]; cbn [flat_map app hexPairs]; [reflexivity |].
  destruct (nibbles_of_byte b Hb) as (Hhi & Hlo & Hsum).
  rewrite (hexval_hexchar _ Hhi), (hexval_hexchar _ Hlo), IH, Hsum. reflexivity.
Qed.

(** [Buffer.from(buf.toString("hex"), "hex")] is [buf]; the text has two hex
    digits per byte. *)
Lemma fromHex_toHex (bytes : list Z) :
  Forall isByte bytes ->
  fromHex (toHex bytes) = bytes
  /\ String.length (toHex bytes) = (2 * List.length bytes)%nat
  /\ forallb (fun c => match hexval c with Some _ => true | None => false end)
             (list_ascii_of_string (toHex bytes)) = true.
Proof.
  intros Hb. unfold fromHex, toHex. rewrite list_ascii_of_string_of_list_ascii.
  split; [now apply hexPairs_toHex |].
  rewrite <- length_list_ascii_of_string, list_ascii_of_string_of_list_ascii.
  induction Hb as [| b bytes Hb _ [IHl IHf]]; cbn [flat_map app List.length forallb];
    [split; reflexivity |].
  destruct (nibbles_of_byte b Hb) as (Hhi & Hlo & _).
  rewrite (hexval_hexchar _ Hhi), (hexval_hexchar _ Hlo), IHl, IHf.
  split; [lia | reflexivity].
Qed.

Lemma hexval_range (c : ascii) (d : Z) : hexval c = Some d -> 0 <= d < 16.
Proof.
  unfold hexval.
  repeat match goal with
         | |- context [if ?b then _ else _] => destruct b eqn:?
         end; intros [= <-]; lia.
Qed.

Lemma list_ind_by2 {A : Type} (P : list A -> Prop) :
  P [] -> (forall a, P [a]) -> (forall a b rest, P rest -> P (a :: b :: rest)) ->
  forall l, P l.
Proof.
  intros H0 H1 H2.
  assert (H : forall l, P l /\ (forall a, P (a :: l))).
  { induction l as [| x l (IH0 & IH1)]; auto. }
  intros l. apply H.
Qed.

(** Decoding a text of hex digits gives bytes, one for every two digits. *)
Lemma hexPairs_bytes (cs : list ascii) :
  forallb (fun c => match hexval c with Some _ => true | None => false end) cs = true ->
  Forall isByte (hexPairs cs)
  /\ List.length (hexPairs cs) = (List.length cs / 2)%nat.
Proof.
  induction cs as [| a | a b rest IH] using list_ind_by2.
  - intros _. split; [constructor | reflexivity].
  - intros _. split; [constructor | reflexivity].
  - cbn [forallb hexPairs List.length]. intros H.
    destruct (hexval a) as [x |] eqn:Ea; [| discriminate].
    destruct (hexval b) as [y |] eqn:Eb; [| discriminate].
    cbn [andb] in H. destruct (IH H) as [Hf Hl].
    pose proof (hexval_range _ _ Ea). pose proof (hexval_range _ _ Eb).
    split; [constructor; [unfold isByte; lia | exact Hf] |].
    cbn [List.length]. rewrite Hl.
    replace (S (S (List.length rest))) with (List.length rest + 1 * 2)%nat by lia.
    rewrite Nat.div_add by lia. lia.
Qed.

End HexFacts.

(** ** More on the format facade *)

Section MoreFacade.
Import Runtime Base64URL Index.

Lemma timestampBytes_are_bytes (ts : Z) (buf : Buffer) :
  Timestamp._timestampToBuffer ts = Return buf ->
  Forall isByte buf /\ List.length buf = 6%nat.
Proof.
  unfold Timestamp._timestampToBuffer.
  destruct (ts >? Timestamp.maxValue); [discriminate |].
  intros H. apply Return_inj in H. subst buf.
  split; [repeat constructor; apply byte_of_range | reflexivity].
Qed.

(** What [formatOutput] makes of the six bytes of a timestamp, in each of the
    three formats, passes [validate] in that format and is read back by
    [timestampToDate] as that timestamp. *)
Lemma formatOutput_timestamp (ts : Z) (buf : Buffer) (format : string) :
  0 <= ts -> Timestamp._timestampToBuffer ts = Return buf -> knownFormat format ->
  exists v,
    formatOutput (JsBuffer buf) format = Return v
    /\ validate v format = Return true
    /\ timestampToDate v format = Return ts.
Proof.
  intros Hts Hbuf Hknown.
  destruct (timestampBytes_are_bytes ts buf Hbuf) as [Hbytes Hlen].
  destruct (timestampOf_emitted ts buf Hts Hbuf) as (Hmax & _ & _).
  destruct (bufferToTimestamp_of_timestampToBuffer ts (conj Hts Hmax))
    as (buf' & Hbuf' & _ & Hvb & Hback).
  assert (buf' = buf) by congruence. subst buf'.
  destruct Hknown as [-> | [-> | ->]].
  - (* base64url *)
    destruct (base64URLToTimestamp_timestampToBase64URL buf Hbytes Hlen)
      as (text & Henc & _ & Hvalid & Hdec).
    exists (JsString text). unfold formatOutput, timestampToDate, validate, validateSwitch.
    cbn [String.eqb Ascii.eqb Bool.eqb]. rewrite Henc, Hvalid, Hdec. auto.
  - (* hex *)
    destruct (fromHex_toHex buf Hbytes) as (Hfrom & Hl & Hall).
    exists (JsString (toHex buf)).
    unfold formatOutput, timestampToDate, validate, validateSwitch, matchesHex12.
    cbn [String.eqb Ascii.eqb Bool.eqb].
    rewrite Hl, Hlen, Hall, Hfrom. cbn [Nat.mul Nat.add Nat.eqb andb negb]. auto.
  - (* buffer *)
    exists (JsBuffer buf). unfold formatOutput, timestampToDate, validate, validateSwitch.
    cbn [String.eqb Ascii.eqb Bool.eqb]. rewrite Hvb. auto.
Qed.

(** Every value [generate] returns, in any of the three formats, passes
    [validate] in that format and is read back by [timestampToDate] as the
    generator's [lastSystemTime]. *)
Theorem generate_output_valid
        (format : string) (g : Timestamp.UUID48Timestamp) (clock : list Z) (v : JsValue) :
  0 <= Timestamp.lastSystemTime g -> knownFormat format ->
  fst (fst (Index.generate format g clock)) = Return v ->
  validate v format = Return true
  /\ timestampToDate v format
     = Return (Timestamp.lastSystemTime (snd (fst (Index.generate format g clock)))).
Proof.
  intros Hlast Hknown. unfold Index.generate.
  pose proof (generate_callPost g clock) as Hpost.
  destruct (Timestamp.generate g clock) as [[r g'] clock'].
  destruct Hpost as (_ & _ & Hmono & _ & Hr). cbn [fst snd].
  destruct r as [buf | message |].
  - destruct Hr as [Hr | Hr]; [discriminate |].
    destruct (formatOutput_timestamp (Timestamp.lastSystemTime g') buf format)
      as (v' & Hfmt & Hval & Hdate); [lia | now symmetry | assumption |].
    rewrite Hfmt. intros Hv. apply Return_inj in Hv. subst v'. auto.
  - destruct (includes "48-bit limit" message); discriminate.
  - discriminate.
Qed.

Lemma generate_output_valid_witness :
  validate (JsString "018bcfe56800") "hex" = Return true
  /\ timestampToDate (JsString "018bcfe56800") "hex"
     = Return (Timestamp.lastSystemTime
                 (snd (fst (Index.generate "hex"
                              (Timestamp.mkGen 0 0 4096 Timestamp.Increment)
                              [1700000000000])))).
Proof.
  apply (generate_output_valid "hex" (Timestamp.mkGen 0 0 4096 Timestamp.Increment)
                               [1700000000000] (JsString "018bcfe56800")).
  - cbn. lia.
  - right. left. reflexivity.
  - vm_compute. reflexivity.
Defined.

(** Converting a valid base64url value to hex gives 12 hex digits, and
    converting those back gives the original text. *)
Theorem convert_base64url_hex_round_trip (text : string) :
  validate (JsString text) "base64url" = Return true ->
  exists hex,
    convert (JsString text) "base64url" "hex" = Return (JsString hex)
    /\ String.length hex = 12%nat
    /\ validate (JsString hex) "hex" = Return true
    /\ convert (JsString hex) "hex" "base64url" = Return (JsString text).
Proof.
  intros Hv.
  assert (Hvalid : isValidTimestampBase64URL (JsString text) = true).
  { unfold validate, validateSwitch in Hv. cbn [String.eqb Ascii.eqb Bool.eqb] in Hv.
    congruence. }
  destruct (timestampToBase64URL_base64URLToTimestamp text Hvalid)
    as (bytes & Hdec & Hbytes & Hlen & Henc).
  destruct (fromHex_toHex bytes Hbytes) as (Hfrom & Hl & Hall).
  assert (Hvh : validate (JsString (toHex bytes)) "hex" = Return true).
  { unfold validate, validateSwitch, matchesHex12. cbn [String.eqb Ascii.eqb Bool.eqb].
    rewrite Hl, Hlen, Hall. reflexivity. }
  exists (toHex bytes). repeat split.
  - unfold convert. rewrite Hv. cbn [String.eqb Ascii.eqb Bool.eqb].
    rewrite Hdec. reflexivity.
  - now rewrite Hl, Hlen.
  - exact Hvh.
  - unfold convert. rewrite Hvh. cbn [String.eqb Ascii.eqb Bool.eqb].
    rewrite Hfrom. unfold formatOutput. cbn [String.eqb Ascii.eqb Bool.eqb].
    now rewrite Henc.
Qed.

Lemma convert_base64url_hex_round_trip_witness :
  exists hex,
    convert (JsString "AQIDBAUG") "base64url" "hex" = Return (JsString hex)
    /\ String.length hex = 12%nat
    /\ validate (JsString hex) "hex" = Return true
    /\ convert (JsString hex) "hex" "base64url" = Return (JsString "AQIDBAUG").
Proof. apply (convert_base64url_hex_round_trip "AQIDBAUG"). reflexivity. Defined.

Lemma validate_true_cases (v : JsValue) (format : string) :
  validate v format = Return true ->
  (format = "base64url" /\ isValidTimestampBase64URL v = true)
  \/ (format = "hex" /\ exists s, v = JsString s /\ matchesHex12 s = true)
  \/ (format = "buffer" /\ Timestamp.validateBuffer v = true).
Proof.
  intros Hv.
  assert (Hsw : validateSwitch v format = Return true).
  { unfold validate in Hv.
    destruct v; try discriminate;
      destruct (validateSwitch _ format) as [ok | |]; congruence. }
  unfold validateSwitch in Hsw.
  destruct (String.eqb format "base64url") eqn:Eb.
  - apply String.eqb_eq in Eb. left. split; congruence.
  - destruct (String.eqb format "hex") eqn:Eh.
    + apply String.eqb_eq in Eh. right. left. split; [assumption |].
      destruct v; try discriminate. exists s. split; [reflexivity |].
      destruct (matchesHex12 s); [reflexivity | discriminate].
    + destruct (String.eqb format "buffer") eqn:Ef; [| discriminate].
      apply String.eqb_eq in Ef. right. right. split; congruence.
Qed.

(** A value that is valid in its format holds six bytes, which both
    [convert] and [timestampToDate] work on. *)
Lemma valid_value_bytes (v : JsValue) (format : string) :
  (forall b, v = JsBuffer b -> Forall isByte b) ->
  validate v format = Return true ->
  exists bytes,
    Forall isByte bytes /\ List.length bytes = 6%nat
    /\ (forall toFormat,
           convert v format toFormat = formatOutput (JsBuffer bytes) toFormat)
    /\ timestampToDate v format = Timestamp.bufferToTimestamp (JsBuffer bytes).
Proof.
  intros Hbuf Hv.
  destruct (validate_true_cases v format Hv) as [[-> Hvalid] | [[-> Hhex] | [-> Hvb]]].
  - pose proof Hvalid as Hvalid'.
    apply isValidTimestampBase64URL_iff in Hvalid' as (s & -> & _).
    destruct (timestampToBase64URL_base64URLToTimestamp s Hvalid)
      as (bytes & Hdec & Hbytes & Hlen & _).
    exists bytes. repeat split; try assumption.
    + intros toFormat. unfold convert. rewrite Hv.
      cbn [String.eqb Ascii.eqb Bool.eqb]. now rewrite Hdec.
    + unfold timestampToDate. rewrite Hv.
      cbn [String.eqb Ascii.eqb Bool.eqb]. now rewrite Hdec.
  - destruct Hhex as (s & -> & Hm).
    unfold matchesHex12 in Hm. apply andb_prop in Hm as [Hlen Hall].
    apply Nat.eqb_eq in Hlen.
    destruct (hexPairs_bytes _ Hall) as [Hbytes Hcount].
    rewrite length_list_ascii_of_string, Hlen in Hcount.
    exists (fromHex s). repeat split; try assumption.
    + intros toFormat. unfold convert. rewrite Hv. reflexivity.
    + unfold timestampToDate. rewrite Hv. reflexivity.
  - destruct v as [| | n | s | b]; try discriminate Hvb.
    assert (Hlen : List.length b = 6%nat).
    { destruct b as [| b0 [| b1 [| b2 [| b3 [| b4 [| b5 [| b6 rest]]]]]]];
        try discriminate Hvb. reflexivity. }
    exists b. repeat split; auto.
    + intros toFormat. unfold convert. rewrite Hv. reflexivity.
    + unfold timestampToDate. rewrite Hv. reflexivity.
Qed.

Lemma formatOutput_bytes (bytes : list Z) (format : string) :
  Forall isByte bytes -> List.length bytes = 6%nat -> knownFormat format ->
  exists w ts,
    formatOutput (JsBuffer bytes) format = Return w
    /\ validate w format = Return true
    /\ Timestamp.bufferToTimestamp (JsBuffer bytes) = Return ts
    /\ timestampToDate w format = Return ts
    /\ 0 <= ts <= Timestamp.maxValue.
Proof.
  intros Hbytes Hlen Hknown.
  destruct bytes as [| b0 [| b1 [| b2 [| b3 [| b4 [| b5 [| b6 rest]]]]]]];
    try discriminate Hlen.
  inversion Hbytes as [| ? ? H0 Hb1]; subst.
  inversion Hb1 as [| ? ? H1 Hb2]; subst.
  inversion Hb2 as [| ? ? H2 Hb3]; subst.
  inversion Hb3 as [| ? ? H3 Hb4]; subst.
  inversion Hb4 as [| ? ? H4 Hb5]; subst.
  inversion Hb5 as [| ? ? H5 _]; subst.
  destruct (timestampToBuffer_of_bufferToTimestamp b0 b1 b2 b3 b4 b5 H0 H1 H2 H3 H4 H5)
    as (ts & Hts & Hrange & Hback).
  destruct (formatOutput_timestamp ts _ format (proj1 Hrange) Hback Hknown)
    as (w & Hw & Hval & Hdate).
  exists w, ts. auto.
Qed.

(** [convert] of a value that is valid in the source format, to any of the
    three formats, returns a value that is valid in the target format and
    carries the same timestamp; [convert] of any other value throws the
    invalid-timestamp error. *)
Theorem convert_preserves_timestamp (v : JsValue) (fromFormat toFormat : string) :
  (forall b, v = JsBuffer b -> Forall isByte b) ->
  knownFormat toFormat ->
  (validate v fromFormat = Return true ->
   exists w ts,
     convert v fromFormat toFormat = Return w
     /\ validate w toFormat = Return true
     /\ timestampToDate v fromFormat = Return ts
     /\ timestampToDate w toFormat = Return ts)
  /\ (validate v fromFormat = Return false ->
      convert v fromFormat toFormat
      = Throw ("Invalid timestamp for format " ++ dq ++ fromFormat ++ dq)).
Proof.
  intros Hbuf Hknown. split.
  - intros Hv.
    destruct (valid_value_bytes v fromFormat Hbuf Hv) as (bytes & Hb & Hl & Hconv & Hdate).
    destruct (formatOutput_bytes bytes toFormat Hb Hl Hknown)
      as (w & ts & Hw & Hval & Hts & Hwdate & _).
    exists w, ts. rewrite Hconv, Hdate. auto.
  - intros Hv. unfold convert. now rewrite Hv.
Qed.

Lemma convert_preserves_timestamp_witness :
  (validate (JsString "0000000000FF") "hex" = Return true ->
   exists w ts,
     convert (JsString "0000000000FF") "hex" "hex" = Return w
     /\ validate w "hex" = Return true
     /\ timestampToDate (JsString "0000000000FF") "hex" = Return ts
     /\ timestampToDate w "hex" = Return ts)
  /\ (validate (JsString "0000000000FF") "hex" = Return false ->
      convert (JsString "0000000000FF") "hex" "hex"
      = Throw ("Invalid timestamp for format " ++ dq ++ "hex" ++ dq)).
Proof.
  apply (convert_preserves_timestamp (JsString "0000000000FF") "hex" "hex").
  - intros b Hb. discriminate Hb.
  - right. left. reflexivity.
Defined.

Lemma timestampToDate_completes (v : JsValue) (format : string) :
  timestampToDate v format <> Blocked.
Proof.
  unfold timestampToDate.
  destruct (validate_returns v format) as [[|] Hv]; rewrite Hv; [| discriminate].
  destruct (validate_true_cases v format Hv) as [[-> Hvalid] | [[-> Hhex] | [-> Hvb]]];
    cbn [String.eqb Ascii.eqb Bool.eqb].
  - unfold base64URLToTimestamp. rewrite Hvalid. cbn [negb].
    apply isValidTimestampBase64URL_iff in Hvalid as (s & -> & _ & Hm).
    rewrite decodeBase64URL_digits by assumption.
    unfold Timestamp.bufferToTimestamp.
    destruct (negb _); [discriminate |].
    destruct (sextetsToBytes _) as [| b0 [| b1 [| b2 [| b3 [| b4 [| b5 [| b6 rest]]]]]]];
      discriminate.
  - destruct Hhex as (s & -> & _).
    unfold Timestamp.bufferToTimestamp.
    destruct (negb _); [discriminate |].
    destruct (fromHex s) as [| b0 [| b1 [| b2 [| b3 [| b4 [| b5 [| b6 rest]]]]]]];
      discriminate.
  - unfold Timestamp.bufferToTimestamp. rewrite Hvb. cbn [negb].
    destruct v as [| | n | s | b]; try discriminate.
    destruct b as [| b0 [| b1 [| b2 [| b3 [| b4 [| b5 [| b6 rest]]]]]]];
      discriminate.
Qed.

(** [isTimestampFresh] never throws once the clock can be read.  It answers
    [true] exactly when the value passes [validate] and decodes to a
    timestamp [t] with [t <= now <= t + maxAgeMs]: a value that does not
    validate is not fresh, and neither is a timestamp from the future. *)
Theorem isTimestampFresh_iff
        (v : JsValue) (maxAgeMs : Z) (format : string) (now : Z) (clock : list Z) :
  exists fresh,
    fst (isTimestampFresh v maxAgeMs format (now :: clock)) = Return fresh
    /\ (fresh = true
        <-> validate v format = Return true
            /\ exists t, timestampToDate v format = Return t /\ t <= now <= t + maxAgeMs)
    /\ (validate v format = Return false -> fresh = false)
    /\ (forall t, timestampToDate v format = Return t -> now < t -> fresh = false).
Proof.
  assert (Hvalid : forall t, timestampToDate v format = Return t ->
                             validate v format = Return true).
  { intros t. unfold timestampToDate.
    destruct (validate v format) as [[|] | message |]; try discriminate. reflexivity. }
  unfold isTimestampFresh, getTimestampAge.
  pose proof (timestampToDate_completes v format) as Hnb.
  destruct (timestampToDate v format) as [t | message |] eqn:Hdate; [| | contradiction].
  - cbn [fst]. eexists. split; [reflexivity |]. split; [| split].
    + split.
      * intros H. apply andb_prop in H as [H1 H2].
        rewrite Z.geb_leb in H1. apply Z.leb_le in H1. apply Z.leb_le in H2.
        split; [now apply (Hvalid t) |]. exists t. split; [reflexivity | lia].
      * intros (_ & t' & Ht & Hrange). apply Return_inj in Ht. subst t'.
        apply andb_true_intro. rewrite Z.geb_leb. split; apply Z.leb_le; lia.
    + intros Hv. rewrite (Hvalid t eq_refl) in Hv. discriminate Hv.
    + intros t' Ht Hlt. apply Return_inj in Ht. subst t'.
      apply andb_false_intro1. rewrite Z.geb_leb. apply Z.leb_gt. lia.
  - cbn [fst]. exists false. split; [reflexivity |]. split; [| split].
    + split; [discriminate |]. intros (_ & t & Ht & _). discriminate Ht.
    + reflexivity.
    + reflexivity.
Qed.

End MoreFacade.

(** ** A generator past the 48-bit limit *)

Section StuckGenerator.
Import Timestamp.

Lemma generateTimes_out_of_range (n : nat) :
  forall (g : UUID48Timestamp) (clock : list Z),
    maxValue < lastSystemTime g ->
    Forall (fun r => forall buf, r <> Return buf)
           (fst (fst (generateTimes n g clock))).
Proof.
  induction n as [| n IH]; intros g clock Hout; cbn [generateTimes].
  - constructor.
  - pose proof (generate_callPost g clock) as Hpost.
    destruct (generate g clock) as [[r g1] clock1].
    destruct Hpost as (_ & _ & Hmono & _ & Hr).
    specialize (IH g1 clock1 ltac:(lia)).
    destruct (generateTimes n g1 clock1) as [[rs g2] clock2]. cbn [fst] in *.
    constructor; [| exact IH].
    intros buf Hbuf. destruct Hr as [Hr | Hr]; [congruence |].
    rewrite _timestampToBuffer_out_of_range in Hr by lia. congruence.
Qed.

(** A reading past 2^48 - 1 makes [generate] throw, yet it is stored in
    [lastSystemTime]; from then on the generator is stuck: in any run of
    later calls on it, whatever the clock reads, no call returns a buffer. *)
Theorem generate_stuck_after_out_of_range
        (g : UUID48Timestamp) (now : Z) (clock later : list Z) (n : nat) :
  lastSystemTime g < now -> maxValue < now ->
  let '(r, g', _) := generate g (now :: clock) in
  (exists message, r = Throw message)
  /\ lastSystemTime g' = now
  /\ Forall (fun r' => forall buf, r' <> Return buf)
            (fst (fst (generateTimes n g' later))).
Proof.
  intros Hnew Hout. rewrite generate_new by assumption.
  rewrite _timestampToBuffer_out_of_range by assumption.
  split; [eauto |]. split; [reflexivity |].
  apply generateTimes_out_of_range. cbn [lastSystemTime]. exact Hout.
Qed.

Lemma generate_stuck_after_out_of_range_witness :
  let '(r, g', _) :=
    generate (mkGen 0 0 4096 Increment) (281474976710656 :: []) in
  (exists message, r = Throw message)
  /\ lastSystemTime g' = 281474976710656
  /\ Forall (fun r' => forall buf, r' <> Return buf)
            (fst (fst (generateTimes 3 g'
                         [281474976710656; 1700000000000; 281474976710656]))).
Proof.
  apply (generate_stuck_after_out_of_range
           (mkGen 0 0 4096 Increment) 281474976710656 []
           [281474976710656; 1700000000000; 281474976710656] 3);
    cbn; unfold maxValue; lia.
Defined.

End StuckGenerator.

(** ** More on the 128-bit generators *)

Section More128.
Import Runtime.

Lemma land_4095 (x : Z) : Z.land x 4095 = x mod 4096.
Proof. change 4095 with (Z.ones 12). now rewrite Z.land_ones by lia. Qed.

(** The fields of a packed value: the low 48 bits of the timestamp and the
    low 12 bits of the sequence.  There is no range check in the 128-bit
    generators: a timestamp past 2^48 - 1 is cut to its low 48 bits. *)
Theorem pack_fields (ts48 seq : Z) (tail : list Z) :
  let bytes := (packHead ts48 seq ++ setVariant tail)%list in
  timestampOf bytes = ts48 mod 2 ^ 48
  /\ sequenceOf bytes = seq mod 4096
  /\ (0 <= ts48 <= Timestamp.maxValue -> timestampOf bytes = ts48)
  /\ (0 <= seq < 4096 -> sequenceOf bytes = seq).
Proof.
  cbv zeta. unfold packHead, timestampOf, sequenceOf. cbn [app nth].
  assert (Hts : Timestamp.readBigEndian48
                  (Z.land (Z.shiftr ts48 40) 255) (Z.land (Z.shiftr ts48 32) 255)
                  (Z.land (Z.shiftr ts48 24) 255) (Z.land (Z.shiftr ts48 16) 255)
                  (Z.land (Z.shiftr ts48 8) 255) (Z.land ts48 255) = ts48 mod 2 ^ 48).
  { rewrite readBigEndian48_bytes by apply byte_of_range.
    rewrite !land_255, !Z.shiftr_div_pow2 by lia.
    change (2 ^ 40) with 1099511627776. change (2 ^ 32) with 4294967296.
    change (2 ^ 24) with 16777216. change (2 ^ 16) with 65536. change (2 ^ 8) with 256.
    change (2 ^ 48) with 281474976710656.
    Z.to_euclidean_division_equations. lia. }
  assert (Hseq : Z.lor (Z.shiftl (Z.land (Z.lor 112 (Z.land (Z.shiftr seq 8) 15)) 15) 8)
                       (Z.land seq 255) = seq mod 4096).
  { pose proof (land_ones_range (Z.shiftr seq 8) 4 ltac:(lia)) as Hr.
    change (Z.ones 4) with 15 in Hr. change (2 ^ 4) with 16 in Hr.
    rewrite (lor_disjoint_add 112 _ 4) by (try reflexivity; lia).
    pose proof (byte_of_range seq) as Hb.
    rewrite lor_shifted by (change (2 ^ 8) with 256; lia).
    rewrite !land_15, land_255, Z.shiftr_div_pow2 by lia.
    change (2 ^ 8) with 256.
    Z.to_euclidean_division_equations. lia. }
  rewrite Hts, Hseq. repeat split.
  - intros Hr. apply Z.mod_small. unfold Timestamp.maxValue in Hr.
    change (2 ^ 48) with 281474976710656. lia.
  - intros Hr. apply Z.mod_small. lia.
Qed.

Lemma pack_fields_witness :
  let bytes := (packHead 281474976710661 4097 ++ setVariant [1; 2; 3; 4; 5; 6; 7; 8])%list in
  timestampOf bytes = 281474976710661 mod 2 ^ 48
  /\ sequenceOf bytes = 4097 mod 4096
  /\ (0 <= 281474976710661 <= Timestamp.maxValue -> timestampOf bytes = 281474976710661)
  /\ (0 <= 4097 < 4096 -> sequenceOf bytes = 4097).
Proof. apply (pack_fields 281474976710661 4097 [1; 2; 3; 4; 5; 6; 7; 8]). Defined.

(** The web generator is strictly monotonic in its state: with a 12-bit
    sequence, every call moves the key (lastMs, seq12) strictly up, never
    below the reading, keeps the sequence in 12 bits and packs exactly that
    key. *)
Theorem web_generateV7_strictly_increasing
        (st : State) (now : Z) (clock : list Z) (e : Entropy) :
  0 <= seq12 st < 4096 ->
  let '(r, st', rest) := UuidV7Web.generateV7 st (now :: clock) e in
  (lastMs st < lastMs st' \/ (lastMs st' = lastMs st /\ seq12 st < seq12 st'))
  /\ now <= lastMs st'
  /\ 0 <= seq12 st' < 4096
  /\ r = Return (UuidV7Web._packUuidV7 (lastMs st') (seq12 st') (randomTail8 e))
  /\ rest = clock.
Proof.
  intros Hseq. rewrite web_generateV7_eq.
  destruct (lastMs st <? now) eqn:Hlt.
  - apply Z.ltb_lt in Hlt. cbn [lastMs seq12]. unfold UuidV7Web._random12.
    rewrite land_4095.
    pose proof (Z.mod_pos_bound (random12 e) 4096 ltac:(lia)).
    repeat split; try reflexivity; lia.
  - apply Z.ltb_ge in Hlt. cbv zeta. rewrite land_4095.
    destruct (Z.eq_dec (seq12 st) 4095) as [H4095 | Hne].
    + rewrite H4095. change ((4095 + 1) mod 4096) with 0. cbn [Z.eqb lastMs seq12].
      repeat split; try reflexivity; lia.
    + rewrite Z.mod_small by lia.
      destruct (seq12 st + 1 =? 0) eqn:E0; [apply Z.eqb_eq in E0; lia |].
      cbn [lastMs seq12]. repeat split; try reflexivity; lia.
Qed.

Lemma web_generateV7_strictly_increasing_witness :
  let '(r, st', rest) :=
    UuidV7Web.generateV7 (mkState 9 4095) (5 :: [6]) (mkEntropy 7 [1; 2; 3; 4; 5; 6; 7; 8]) in
  (9 < lastMs st' \/ (lastMs st' = 9 /\ 4095 < seq12 st'))
  /\ 5 <= lastMs st'
  /\ 0 <= seq12 st' < 4096
  /\ r = Return (UuidV7Web._packUuidV7 (lastMs st') (seq12 st') [1; 2; 3; 4; 5; 6; 7; 8])
  /\ rest = [6].
Proof.
  apply (web_generateV7_strictly_increasing
           (mkState 9 4095) 5 [6] (mkEntropy 7 [1; 2; 3; 4; 5; 6; 7; 8])).
  cbn. lia.
Defined.

(** The Node generator against the clock: a call that returns has taken a
    reading as its timestamp.  When the first reading is not behind [lastMs]
    the key (lastMs, seq12) moves strictly up, or, on a new millisecond, to
    the reading with a fresh random sequence; when the first reading is
    behind [lastMs], [lastMs] moves back to it. *)
Theorem node_generateV7_follows_clock
        (st : State) (ts : Z) (clock : list Z) (e : Entropy) :
  0 <= seq12 st < 4096 ->
  let '(r, st', _) := UuidV7Node.generateV7 st (ts :: clock) e in
  r <> Blocked ->
  r = Return (UuidV7Node._packUuidV7 (lastMs st') (seq12 st') (randomTail8 e))
  /\ (ts = lastMs st ->
      lastMs st < lastMs st' \/ (lastMs st' = lastMs st /\ seq12 st' = seq12 st + 1))
  /\ (lastMs st < ts -> lastMs st' = ts /\ seq12 st' = random12 e)
  /\ (ts < lastMs st -> lastMs st' = ts /\ lastMs st' < lastMs st).
Proof.
  intros Hseq. rewrite node_generateV7_eq.
  destruct (ts =? lastMs st) eqn:Heq.
  - apply Z.eqb_eq in Heq. cbv zeta. rewrite land_4095.
    destruct (Z.eq_dec (seq12 st) 4095) as [H4095 | Hne].
    + rewrite H4095. change ((4095 + 1) mod 4096) with 0. cbn [Z.eqb].
      destruct (UuidV7Node._waitNextMs ts clock) as [[t clock'] |] eqn:Hw.
      * apply _waitNextMs_later in Hw. intros _. cbn [lastMs seq12].
        repeat split; try reflexivity; lia.
      * intros H. now contradiction H.
    + rewrite Z.mod_small by lia.
      destruct (seq12 st + 1 =? 0) eqn:E0; [apply Z.eqb_eq in E0; lia |].
      intros _. cbn [lastMs seq12]. repeat split; try reflexivity; lia.
  - apply Z.eqb_neq in Heq. intros _. cbn [lastMs seq12].
    repeat split; try reflexivity; lia.
Qed.

Lemma node_generateV7_follows_clock_witness :
  let '(r, st', _) :=
    UuidV7Node.generateV7 (mkState 9 7) (3 :: []) (mkEntropy 11 [1; 2; 3; 4; 5; 6; 7; 8]) in
  r <> Blocked ->
  r = Return (UuidV7Node._packUuidV7 (lastMs st') (seq12 st') [1; 2; 3; 4; 5; 6; 7; 8])
  /\ (3 = 9 -> 9 < lastMs st' \/ (lastMs st' = 9 /\ seq12 st' = 7 + 1))
  /\ (9 < 3 -> lastMs st' = 3 /\ seq12 st' = 11)
  /\ (3 < 9 -> lastMs st' = 3 /\ lastMs st' < 9).
Proof.
  apply (node_generateV7_follows_clock
           (mkState 9 7) 3 [] (mkEntropy 11 [1; 2; 3; 4; 5; 6; 7; 8])).
  cbn. lia.
Defined.

Lemma dropTrailing_padded (cs : list ascii) (c : ascii) (n : nat) :
  Forall (fun x => Ascii.eqb x c = false) cs ->
  dropTrailing c (cs ++ repeat c n) = cs.
Proof.
  intros H. induction H as [| x cs Hx _ IH]; cbn [app].
  - induction n as [| n IHn]; cbn [repeat dropTrailing]; [reflexivity |].
    now rewrite IHn, Ascii.eqb_refl.
  - cbn [dropTrailing]. rewrite IH. destruct cs; [now rewrite Hx | reflexivity].
Qed.

(** The two [_toBase64Url] of gpt-5.js give the text [encodeBase64URL] of
    base64url.js gives. *)
Lemma toBase64Url_is_encodeBase64URL (bytes : list Z) :
  Forall isByte bytes ->
  Base64URL.encodeBase64URL (JsBuffer bytes) = Return (UuidV7Node._toBase64Url bytes)
  /\ UuidV7Web._toBase64Url bytes = UuidV7Node._toBase64Url bytes.
Proof.
  intros Hb. split; [| reflexivity].
  rewrite encodeBase64URL_sextets by assumption. f_equal.
  unfold UuidV7Node._toBase64Url, stripTrailing, replaceAll, toBase64.
  rewrite !list_ascii_of_string_of_list_ascii.
  rewrite !map_app, !map_map. unfold padding. rewrite !map_repeat.
  change (replaceChar "/" "_" (replaceChar "+" "-" "="%char)) with "="%char.
  rewrite dropTrailing_padded; [reflexivity |].
  apply Forall_map. eapply Forall_impl; [| apply bytesToSextets_range; exact Hb].
  intros i Hi. cbv beta.
  now destruct (urlChar_facts i Hi) as (_ & _ & ->).
Qed.

Lemma pack_bytes (ts48 seq : Z) (tail : list Z) :
  Forall isByte tail -> List.length tail = 8%nat ->
  Forall isByte (packHead ts48 seq ++ setVariant tail)%list
  /\ List.length (packHead ts48 seq ++ setVariant tail)%list = 16%nat.
Proof.
  intros Htail Hlen. destruct tail as [| t0 rest]; [discriminate |].
  inversion Htail as [| ? ? _ Hrest]; subst.
  unfold packHead, setVariant. cbn [app List.length]. cbn [List.length] in Hlen.
  split; [| lia].
  repeat (constructor; [first [apply byte_of_range | apply versionByte] |]).
  constructor; [apply variantByte | exact Hrest].
Qed.

(** An identifier of either 128-bit generator is a text of 22 characters of
    the URL-safe alphabet, without padding, and [decodeBase64URL] turns it
    back into the 16 packed bytes. *)
Theorem generateV7Base64Url_text
        (st : State) (clock : list Z) (e : Entropy) (text : string) :
  Forall isByte (randomTail8 e) -> List.length (randomTail8 e) = 8%nat ->
  fst (fst (UuidV7Node.generateV7Base64Url st clock e)) = Return text
  \/ fst (fst (UuidV7Web.generateV7Base64Url st clock e)) = Return text ->
  String.length text = 22%nat
  /\ Base64URL.matchesBase64URL text = true
  /\ exists bytes,
      Base64URL.decodeBase64URL (JsString text) = Return bytes
      /\ List.length bytes = 16%nat
      /\ Z.shiftr (nth 6 bytes 0) 4 = 7 /\ Z.shiftr (nth 8 bytes 0) 6 = 2.
Proof.
  intros Htail Hlen Hgen.
  assert (Hbytes : exists bytes,
             text = UuidV7Node._toBase64Url bytes
             /\ (fst (fst (UuidV7Node.generateV7 st clock e)) = Return bytes
                 \/ fst (fst (UuidV7Web.generateV7 st clock e)) = Return bytes)).
  { destruct Hgen as [H | H].
    - unfold UuidV7Node.generateV7Base64Url in H.
      destruct (UuidV7Node.generateV7 st clock e) as [[r st'] clock'].
      cbn [fst] in *. destruct r as [bytes | |]; try discriminate.
      apply Return_inj in H. eauto.
    - unfold UuidV7Web.generateV7Base64Url in H.
      destruct (UuidV7Web.generateV7 st clock e) as [[r st'] clock'].
      cbn [fst] in *. destruct r as [bytes | |]; try discriminate.
      apply Return_inj in H. eauto. }
  destruct Hbytes as (bytes & -> & Hret).
  destruct (generateV7_packs st clock e bytes Hret) as (ts48 & seq & ->).
  destruct (pack_bytes ts48 seq (randomTail8 e) Htail Hlen) as [Hb Hl].
  destruct (pack_version_variant ts48 seq (randomTail8 e) Hlen) as (_ & [_ Hver] & [_ Hvar]).
  destruct (toBase64Url_is_encodeBase64URL _ Hb) as [Henc _].
  destruct (decode_encode_bytes _ Hb) as (text & Henc' & Hdec & Hlen').
  assert (text = UuidV7Node._toBase64Url
                   (packHead ts48 seq ++ setVariant (randomTail8 e))%list)
    by congruence.
  subst text.
  rewrite bytesToSextets_count, Hl in Hlen'.
  split; [exact Hlen' |]. split.
  - rewrite encodeBase64URL_sextets in Henc by assumption.
    apply Return_inj in Henc. rewrite <- Henc.
    apply matchesBase64URL_encoded. now apply bytesToSextets_range.
  - eexists. split; [exact Hdec |]. auto.
Qed.

Lemma generateV7Base64Url_text_witness :
  String.length "AAAAAAAFcAeBAgMEBQYHCA" = 22%nat
  /\ Base64URL.matchesBase64URL "AAAAAAAFcAeBAgMEBQYHCA" = true
  /\ exists bytes,
      Base64URL.decodeBase64URL (JsString "AAAAAAAFcAeBAgMEBQYHCA") = Return bytes
      /\ List.length bytes = 16%nat
      /\ Z.shiftr (nth 6 bytes 0) 4 = 7 /\ Z.shiftr (nth 8 bytes 0) 6 = 2.
Proof.
  apply (generateV7Base64Url_text _state [5] (mkEntropy 7 [1; 2; 3; 4; 5; 6; 7; 8])).
  - repeat constructor; unfold isByte; lia.
  - reflexivity.
  - left. vm_compute. reflexivity.
Defined.

End More128.

(** ** The class TimestampGenerator *)

Section GeneratorClass.
Import Runtime Base64URL Index.

Lemma includes_app_r (needle a b : string) :
  includes needle b = true -> includes needle (a ++ b) = true.
Proof.
  intros H. induction a as [| c a IH]; [exact H |].
  cbn [append]. destruct b; cbn [includes]; now rewrite IH, orb_true_r.
Qed.

Lemma includes_limit_in_range_error (ts : Z) :
  includes "48-bit limit"
           ("Timestamp " ++ showZ ts ++ " exceeds 48-bit limit (max: "
            ++ showZ Timestamp.maxValue ++ "). "
            ++ "This indicates system time is beyond year 8921. Check system clock configuration.")
  = true.
Proof.
  apply includes_app_r. apply includes_app_r. vm_compute. reflexivity.
Qed.

(** A reading past 2^48 - 1 makes both [generate] of the facade and the
    [generate] method of [TimestampGenerator] throw their own clock error,
    whatever the format token; the message no longer carries the value. *)
Theorem generate_out_of_range_message
        (format : string) (oformat : option string)
        (g : Timestamp.UUID48Timestamp) (this : TimestampGenerator)
        (now : Z) (clock : list Z) :
  Timestamp.maxValue < now ->
  Timestamp.lastSystemTime g < now ->
  Timestamp.lastSystemTime (algorithm this) < now ->
  fst (fst (Index.generate format g (now :: clock)))
  = Throw ("Timestamp exceeds 48-bit limit. This error indicates system time "
           ++ "is beyond year 8921. Check system clock configuration.")
  /\ fst (fst (tgGenerate this oformat (now :: clock)))
     = Throw ("Timestamp exceeds 48-bit limit. System time is beyond year 8921. "
              ++ "Check system clock configuration.").
Proof.
  intros Hout Hg Hthis. split.
  - unfold Index.generate. rewrite generate_new by assumption.
    rewrite _timestampToBuffer_out_of_range by assumption.
    rewrite includes_limit_in_range_error. reflexivity.
  - unfold tgGenerate. rewrite generate_new by assumption.
    rewrite _timestampToBuffer_out_of_range by assumption.
    rewrite includes_limit_in_range_error. reflexivity.
Qed.

Lemma generate_out_of_range_message_witness :
  fst (fst (Index.generate "hex" (Timestamp.mkGen 0 0 4096 Timestamp.Increment)
                           (281474976711655 :: [])))
  = Throw ("Timestamp exceeds 48-bit limit. This error indicates system time "
           ++ "is beyond year 8921. Check system clock configuration.")
  /\ fst (fst (tgGenerate (mkTG (Timestamp.mkGen 0 0 4096 Timestamp.Increment) "hex")
                          None (281474976711655 :: [])))
     = Throw ("Timestamp exceeds 48-bit limit. System time is beyond year 8921. "
              ++ "Check system clock configuration.").
Proof.
  apply (generate_out_of_range_message
           "hex" None (Timestamp.mkGen 0 0 4096 Timestamp.Increment)
           (mkTG (Timestamp.mkGen 0 0 4096 Timestamp.Increment) "hex")
           281474976711655 []); cbn; unfold Timestamp.maxValue; lia.
Defined.



Lemma tgGenerate_valid (this : TimestampGenerator) (format : option string)
      (clock : list Z) (v : JsValue) (this' : TimestampGenerator) (clock' : list Z) :
  0 <= Timestamp.lastSystemTime (algorithm this) ->
  knownFormat (effectiveFormat this format) ->
  tgGenerate this format clock = (Return v, this', clock') ->
  validate v (effectiveFormat this format) = Return true
  /\ timestampToDate v (effectiveFormat this format)
     = Return (Timestamp.lastSystemTime (algorithm this'))
  /\ Timestamp.lastSystemTime (algorithm this)
     <= Timestamp.lastSystemTime (algorithm this')
  /\ defaultFormat this' = defaultFormat this.
Proof.
  intros Hlast Hknown. unfold tgGenerate. fold (effectiveFormat this format).
  pose proof (generate_callPost (algorithm this) clock) as Hpost.
  destruct (Timestamp.generate (algorithm this) clock) as [[r g'] rest].
  destruct Hpost as (_ & _ & Hmono & _ & Hr).
  destruct r as [buf | message |].
  - destruct Hr as [Hr | Hr]; [discriminate |].
    destruct (formatOutput_timestamp (Timestamp.lastSystemTime g') buf
                                     (effectiveFormat this format))
      as (v' & Hfmt & Hval & Hdate); [lia | now symmetry | assumption |].
    rewrite Hfmt. intros H.
    assert (v' = v) by congruence. assert (this' = mkTG g' (defaultFormat this)) by congruence.
    subst. cbn [algorithm defaultFormat]. auto.
  - destruct (includes "48-bit limit" message); discriminate.
  - discriminate.
Qed.

Lemma StronglySorted_snoc (l : list Z) (y : Z) :
  StronglySorted Z.le l -> Forall (fun x => x <= y) l -> StronglySorted Z.le (l ++ [y]).
Proof.
  induction 1 as [| x l Hs IH Hx]; intros Hy; cbn [app].
  - repeat constructor.
  - inversion Hy as [| ? ? Hxy Hly]; subst. constructor; [now apply IH |].
    apply Forall_app. split; [exact Hx | repeat constructor; exact Hxy].
Qed.

Lemma batchLoop_valid (n : nat) :
  forall (this : TimestampGenerator) (format : option string) (clock : list Z)
         (acc results : list JsValue) (ts : list Z)
         (this' : TimestampGenerator) (clock' : list Z),
    0 <= Timestamp.lastSystemTime (algorithm this) ->
    knownFormat (effectiveFormat this format) ->
    Forall (fun v => validate v (effectiveFormat this format) = Return true) acc ->
    map (fun v => timestampToDate v (effectiveFormat this format)) acc = map Return ts ->
    StronglySorted Z.le ts ->
    Forall (fun t => t <= Timestamp.lastSystemTime (algorithm this)) ts ->
    batchLoop n this format clock acc = (Return results, this', clock') ->
    List.length results = (List.length acc + n)%nat
    /\ Forall (fun v => validate v (effectiveFormat this format) = Return true) results
    /\ exists ts', map (fun v => timestampToDate v (effectiveFormat this format)) results
                   = map Return ts'
                   /\ StronglySorted Z.le ts'.
Proof.
  induction n as [| n IH];
    intros this format clock acc results ts this' clock' Hlast Hknown Hvalid Hdates Hsorted Hbound;
    cbn [batchLoop].
  - intros H. assert (results = acc) by congruence. subst results.
    split; [lia |]. split; [exact Hvalid |]. eauto.
  - destruct (tgGenerate this format clock) as [[r this1] clock1] eqn:Hgen.
    destruct r as [v | message |]; try discriminate.
    destruct (tgGenerate_valid this format clock v this1 clock1 Hlast Hknown Hgen)
      as (Hv & Hd & Hmono & Hdf).
    assert (Heff : effectiveFormat this1 format = effectiveFormat this format).
    { unfold effectiveFormat. destruct format; [reflexivity | exact Hdf]. }
    intros Hloop.
    destruct (IH this1 format clock1 (acc ++ [v])%list results
                 (ts ++ [Timestamp.lastSystemTime (algorithm this1)])%list this' clock')
      as (Hlen & Hall & ts' & Hts' & Hs'); try assumption.
    + lia.
    + now rewrite Heff.
    + rewrite Heff. apply Forall_app. split; [exact Hvalid | repeat constructor; exact Hv].
    + rewrite Heff, !map_app, Hdates. cbn [map]. now rewrite Hd.
    + apply StronglySorted_snoc; [exact Hsorted |].
      eapply Forall_impl; [| exact Hbound]. cbv beta. intros t Ht. lia.
    + apply Forall_app. split.
      * eapply Forall_impl; [| exact Hbound]. cbv beta. intros t Ht. lia.
      * repeat constructor. lia.
    + rewrite Heff in Hall, Hts'. rewrite length_app in Hlen. cbn [List.length] in Hlen.
      split; [lia |]. split; [exact Hall |]. eauto.
Qed.

(** A batch that comes back holds exactly [count] values, each valid in the
    format asked for, and the timestamps they carry never decrease; a
    [count] that is not positive is refused before the generator is
    touched. *)
Theorem generateBatch_valid
        (this : TimestampGenerator) (count : Z) (format : option string)
        (clock : list Z) (results : list JsValue) :
  0 <= Timestamp.lastSystemTime (algorithm this) ->
  knownFormat (effectiveFormat this format) ->
  (fst (fst (generateBatch this count format clock)) = Return results ->
   0 < count
   /\ Z.of_nat (List.length results) = count
   /\ Forall (fun v => validate v (effectiveFormat this format) = Return true) results
   /\ exists ts, map (fun v => timestampToDate v (effectiveFormat this format)) results
                 = map Return ts
                 /\ StronglySorted Z.le ts)
  /\ (count <= 0 ->
      generateBatch this count format clock
      = (Throw "Count must be a positive integer", this, clock)).
Proof.
  intros Hlast Hknown. unfold generateBatch. split.
  - destruct (count <=? 0) eqn:Hc; [discriminate |]. apply Z.leb_gt in Hc.
    destruct (batchLoop (Z.to_nat count) this format clock [])
      as [[r this'] clock'] eqn:Hloop.
    cbn [fst]. intros ->.
    assert (Hspec := batchLoop_valid (Z.to_nat count) this format clock [] results []
                                     this' clock' Hlast Hknown
                                     (Forall_nil _) eq_refl (SSorted_nil _) (Forall_nil _)
                                     Hloop).
    destruct Hspec as (Hlen & Hall & Hts).
    cbn [List.length] in Hlen.
    split; [lia |]. split; [lia |]. split; assumption.
  - intros Hc. apply Z.leb_le in Hc. now rewrite Hc.
Qed.

Lemma generateBatch_valid_witness :
  let this := mkTG (Timestamp.mkGen 0 0 2 Timestamp.Increment) "hex" in
  let results := [JsString "000000000005"; JsString "000000000005"; JsString "000000000006"] in
  0 < 3
  /\ Z.of_nat (List.length results) = 3
  /\ Forall (fun v => validate v (effectiveFormat this None) = Return true) results
  /\ exists ts, map (fun v => timestampToDate v (effectiveFormat this None)) results
                = map Return ts
                /\ StronglySorted Z.le ts.
Proof.
  refine (proj1 (generateBatch_valid
                   (mkTG (Timestamp.mkGen 0 0 2 Timestamp.Increment) "hex") 3 None [5; 5; 5]
                   [JsString "000000000005"; JsString "000000000005";
                    JsString "000000000006"] _ _) _).
  - cbn. lia.
  - right. left. reflexivity.
  - vm_compute. reflexivity.
Defined.

End GeneratorClass.

(** ** Identifiers ahead of the clock *)

Section AheadOfClock.
Import Index.

(** An identifier minted by a counter overflow under the [Increment]
    strategy is one millisecond ahead of the clock: at the same clock reading
    [getTimestampAge] gives -1 and [isTimestampFresh] answers [false],
    whatever [maxAgeMs]. *)
Theorem overflow_id_is_not_fresh
        (format : string) (g : Timestamp.UUID48Timestamp) (clock clock' : list Z)
        (maxAgeMs : Z) :
  knownFormat format ->
  Timestamp.waitStrategy g = Timestamp.Increment ->
  Timestamp.maxSubMs g <= Timestamp.subMillisecondCounter g + 1 ->
  0 <= Timestamp.lastSystemTime g < Timestamp.maxValue ->
  let now := Timestamp.lastSystemTime g in
  exists v,
    fst (fst (Index.generate format g (now :: clock))) = Return v
    /\ timestampToDate v format = Return (now + 1)
    /\ getTimestampAge v format (now :: clock') = (Return (-1), clock')
    /\ isTimestampFresh v maxAgeMs format (now :: clock') = (Return false, clock').
Proof.
  intros Hknown Hs Hov Hrange. cbv zeta.
  unfold Index.generate. rewrite generate_overflow_increment by assumption.
  destruct (Timestamp._timestampToBuffer (Timestamp.lastSystemTime g + 1))
    as [buf | |] eqn:Hbuf;
    try (rewrite _timestampToBuffer_in_range in Hbuf by lia; discriminate).
  destruct (formatOutput_timestamp (Timestamp.lastSystemTime g + 1) buf format)
    as (v & Hfmt & _ & Hdate); [lia | assumption | assumption |].
  exists v. rewrite Hfmt. cbn [fst].
  assert (Hage : getTimestampAge v format (Timestamp.lastSystemTime g :: clock')
                 = (Return (-1), clock')).
  { unfold getTimestampAge. rewrite Hdate. do 2 f_equal. lia. }
  repeat split; try assumption.
  unfold isTimestampFresh. rewrite Hage. reflexivity.
Qed.

Lemma overflow_id_is_not_fresh_witness :
  exists v,
    fst (fst (Index.generate "base64url" (Timestamp.mkGen 1700000000000 4095 4096 Timestamp.Increment)
                             (1700000000000 :: [])))
    = Return v
    /\ timestampToDate v "base64url" = Return (1700000000000 + 1)
    /\ getTimestampAge v "base64url" (1700000000000 :: []) = (Return (-1), [])
    /\ isTimestampFresh v 1000 "base64url" (1700000000000 :: []) = (Return false, []).
Proof.
  apply (overflow_id_is_not_fresh
           "base64url" (Timestamp.mkGen 1700000000000 4095 4096 Timestamp.Increment)
           [] [] 1000).
  - left. reflexivity.
  - reflexivity.
  - cbn. lia.
  - cbn. unfold Timestamp.maxValue. lia.
Defined.

End AheadOfClock.
